(** * The mock Lightning ledger of ldk-mcp ([src/services/lightningService.ts])

    A shallow embedding of [LightningService]: the channel and payment
    registries, the node-info counters, the deferred close callbacks and the
    backup/restore serializer, followed by the properties of the
    specification that concern them.

    Conventions of the embedding.
    - Amounts, counters and timestamps are JavaScript numbers that hold
      integers; they are modelled as [Z], and their sums and differences as
      those of [Z].  The products and quotients the code takes in double
      precision ([x * 0.001], [x * 0.99], [x * 1000 / 1000000],
      [sats * 1000]) are computed as a double computes them: the exact
      product or quotient rounded to the nearest number with a 53-bit
      mantissa, ties to the even mantissa.
    - What the platform draws on each call ([crypto.randomBytes],
      [Math.random], [Date.now]) is an explicit argument of the operation.
    - A [Map] is an association list in insertion order with distinct keys.
    - Channel objects live in a store and the registry holds references, so
      that the object captured by a pending close callback and the object
      handed out by the registry are the same cell.
    - The [bolt11] package is not part of the repository: its [decode] is a
      parameter of the development.
    - The embedding is typed as [src/types/lightning.ts] declares.  Where
      the code would put a value of another type into a declared field (an
      [any] out of [JSON.parse], a missing invoice tag), the operation ends
      in the outcome [Untyped] and is not followed further.
    - The text of a backup (JSON under base64) is abstracted to the value it
      parses to. *)

From Stdlib Require Import ZArith String List Bool Lia Permutation Sorted DecimalString.
From Stdlib Require PrimFloat SpecFloat FloatOps Uint63.
From stdpp Require Import base option list.

Import ListNotations.
Local Open Scope string_scope.
Local Open Scope list_scope.
Local Open Scope Z_scope.

(** ** JavaScript values at the [any]-typed boundary *)

(** What [JSON.parse] builds, together with [undefined], which a property
    read yields for a missing member.  Numbers are the integers. *)
#[local] Unset Elimination Schemes.
Inductive value : Type :=
  | VUndefined
  | VNull
  | VBool (b : bool)
  | VNum (n : Z)
  | VStr (s : string)
  | VArr (items : list value)
  | VObj (members : list (string * value)).
#[local] Set Elimination Schemes.

(** [o[name]] for a parsed object: the member, or [undefined]. *)
Fixpoint member (name : string) (members : list (string * value)) : value :=
  match members with
  | [] => VUndefined
  | (k, v) :: rest => if String.eqb k name then v else member name rest
  end.

(** [items[i]] for a parsed array. *)
Definition item (i : nat) (items : list value) : value :=
  nth i items VUndefined.

(** [v.name] for a [v] that is neither [null] nor [undefined]: arrays,
    strings, numbers and booleans have none of the members read here. *)
Definition read_member (v : value) (name : string) : value :=
  match v with
  | VObj members => member name members
  | _ => VUndefined
  end.

(** [v.name]: a [TypeError] ([None]) on [null] and [undefined]. *)
Definition get_member (v : value) (name : string) : option value :=
  match v with
  | VUndefined | VNull => None
  | _ => Some (read_member v name)
  end.

(** Key equality of [Map] (SameValueZero): primitives by value, objects by
    identity; two objects built by one [JSON.parse] are never identical. *)
Definition same_value_zero (a b : value) : bool :=
  match a, b with
  | VUndefined, VUndefined => true
  | VNull, VNull => true
  | VBool x, VBool y => Bool.eqb x y
  | VNum x, VNum y => Z.eqb x y
  | VStr x, VStr y => String.eqb x y
  | _, _ => false
  end.

(** ** [Map]: insertion-ordered association lists *)

Section JsMap.
Context {K V : Type} (key_eqb : K -> K -> bool).

Fixpoint map_get (k : K) (m : list (K * V)) : option V :=
  match m with
  | [] => None
  | (k', v) :: rest => if key_eqb k' k then Some v else map_get k rest
  end.

(** [m.set(k, v)]: an existing key keeps its position. *)
Fixpoint map_set (k : K) (v : V) (m : list (K * V)) : list (K * V) :=
  match m with
  | [] => [(k, v)]
  | (k', v') :: rest =>
      if key_eqb k' k then (k', v) :: rest else (k', v') :: map_set k v rest
  end.

Fixpoint map_delete (k : K) (m : list (K * V)) : list (K * V) :=
  match m with
  | [] => []
  | (k', v') :: rest =>
      if key_eqb k' k then map_delete k rest else (k', v') :: map_delete k rest
  end.

Definition map_keys (m : list (K * V)) : list K := map fst m.
Definition map_values (m : list (K * V)) : list V := map snd m.
End JsMap.

(** ** The declared types ([src/types/lightning.ts]) *)

Inductive ChannelState := Pending | Open | Closing | Closed | ForceClosing.

Inductive PaymentStatus := PaymentPending | Succeeded | Failed.

Record Channel := mkChannel {
  channelId : string;
  shortChannelId : option string;
  remotePubkey : string;
  fundingTxid : string;
  capacityMsat : Z;
  localBalanceMsat : Z;
  remoteBalanceMsat : Z;
  state : ChannelState;
  isUsable : bool
}.

Record NodeInfo := mkNodeInfo {
  nodeId : string;
  alias : string;
  numChannels : Z;
  numUsableChannels : Z;
  numPeers : Z;
  blockHeight : Z;
  syncedToChain : bool;
  version : string
}.

Record Payment := mkPayment {
  paymentHash : string;
  paymentPreimage : option string;
  amountMsat : Z;
  status : PaymentStatus;
  timestamp : Z;
  description : option string;
  bolt11 : option string;
  feeMsat : option Z
}.

Record FeeEstimate := mkFeeEstimate {
  baseFee : Z;
  proportionalMillionths : Z;
  estimatedFeeMsat : Z;
  estimatedDurationSeconds : Z
}.

Definition ChannelState_eqb (a b : ChannelState) : bool :=
  match a, b with
  | Pending, Pending | Open, Open | Closing, Closing
  | Closed, Closed | ForceClosing, ForceClosing => true
  | _, _ => false
  end.

(** ** The service state *)

(** A callback queued by [setTimeout] in [closeChannel]: the channel object
    and the identifier its closure captured, and the time it is due. *)
Record Timer := mkTimer {
  due : Z;
  target : nat;
  closing_id : string
}.

Record State := mkState {
  store : list Channel;
  channels : list (string * nat);
  payments : list (string * Payment);
  nodeInfo : NodeInfo;
  timers : list Timer
}.

Definition set_nodeInfo (ni : NodeInfo) (st : State) : State :=
  mkState (store st) (channels st) (payments st) ni (timers st).

Definition set_channels (s : list Channel) (c : list (string * nat)) (st : State) : State :=
  mkState s c (payments st) (nodeInfo st) (timers st).

Definition set_payments (p : list (string * Payment)) (st : State) : State :=
  mkState (store st) (channels st) p (nodeInfo st) (timers st).

Definition set_timers (t : list Timer) (st : State) : State :=
  mkState (store st) (channels st) (payments st) (nodeInfo st) t.

Definition add_numChannels (d : Z) (ni : NodeInfo) : NodeInfo :=
  mkNodeInfo (nodeId ni) (alias ni) (numChannels ni + d) (numUsableChannels ni)
    (numPeers ni) (blockHeight ni) (syncedToChain ni) (version ni).

Definition add_numUsableChannels (d : Z) (ni : NodeInfo) : NodeInfo :=
  mkNodeInfo (nodeId ni) (alias ni) (numChannels ni) (numUsableChannels ni + d)
    (numPeers ni) (blockHeight ni) (syncedToChain ni) (version ni).

Definition set_state (s : ChannelState) (c : Channel) : Channel :=
  mkChannel (channelId c) (shortChannelId c) (remotePubkey c) (fundingTxid c)
    (capacityMsat c) (localBalanceMsat c) (remoteBalanceMsat c) s (isUsable c).

Definition set_isUsable (u : bool) (c : Channel) : Channel :=
  mkChannel (channelId c) (shortChannelId c) (remotePubkey c) (fundingTxid c)
    (capacityMsat c) (localBalanceMsat c) (remoteBalanceMsat c) (state c) u.

(** How an operation that can throw ends.  [Untyped] marks a run in which a
    field received a value outside its declared type (an [any] that is not
    what the annotation says); the embedding, which is typed, stops there. *)
Inductive Outcome (A : Type) : Type :=
  | Returned (result : A) (st : State)
  | Threw (error : string) (st : State)
  | Untyped.
Arguments Returned {A} result st.
Arguments Threw {A} error st.
Arguments Untyped {A}.

Definition outcome_state {A} (o : Outcome A) : option State :=
  match o with
  | Returned _ st | Threw _ st => Some st
  | Untyped => None
  end.

(** ** The invoice decoder of the [bolt11] package *)

Record Tag := mkTag {
  tagName : string;
  data : string
}.

(** The members of a decoded payment request that the service reads.
    [millisatoshis] is the decimal text the package renders, or [null]; the
    field holds the integer [parseInt] reads from that text. *)
Record PaymentRequestObject := mkPaymentRequest {
  tags : list Tag;
  millisatoshis : option Z
}.

Inductive DecodeResult :=
  | Decoded (decoded : PaymentRequestObject)
  | DecodeThrows (error : string).

(** [tags.find(t => t.tagName === name)?.data] *)
Definition tag_data (name : string) (ts : list Tag) : option string :=
  data <$> find (fun t => String.eqb (tagName t) name) ts.

(** ** Numbers *)

(** [`${n}`] for an integer. *)
Definition number_to_string (n : Z) : string :=
  NilZero.string_of_int (Z.to_int n).

(** *** Double precision

    A finite double is [mantissa * 2 ^ exponent] and is written as that
    pair.  The exponent is not bounded here: no number of the ledger comes
    near the largest or the smallest double. *)

(** The integer nearest to [n / d], the even one of two equally near;
    [d] is positive. *)
Definition round_half_even (n d : Z) : Z :=
  let q := n / d in
  let r := n mod d in
  if 2 * r <? d then q
  else if d <? 2 * r then q + 1
  else if Z.even q then q else q + 1.

(** The double nearest to [n / d] for a positive [d]: the exponent is the
    one that puts the magnitude of the mantissa between [2^52] and [2^53],
    the mantissa is the quotient rounded at that exponent. *)
Definition binary64 (n d : Z) : Z * Z :=
  if n =? 0 then (0, 0)
  else
    let magnitude := Z.abs n in
    let shift := Z.log2 d + 1 in
    let log := Z.log2 (magnitude * 2 ^ shift / d) in
    let mantissa := round_half_even (magnitude * 2 ^ (shift + 52)) (d * 2 ^ log) in
    (Z.sgn n * mantissa, log - shift - 52).

(** [Math.floor(x)] *)
Definition Math_floor (x : Z * Z) : Z :=
  if 0 <=? snd x then fst x * 2 ^ snd x else fst x / 2 ^ (- snd x).

(** A decimal literal [n / d] of the source, such as [0.001]. *)
Definition number_literal (n d : Z) : Z * Z := binary64 n d.

(** [x * y] for a number [x] that is an integer and a double [y]. *)
Definition number_times (x : Z) (y : Z * Z) : Z * Z :=
  binary64 (x * fst y * 2 ^ Z.max 0 (snd y)) (2 ^ Z.max 0 (- snd y)).

(** [x / y] for a double [x] and a number [y] that is a positive integer. *)
Definition number_over (x : Z * Z) (y : Z) : Z * Z :=
  binary64 (fst x * 2 ^ Z.max 0 (snd x)) (y * 2 ^ Z.max 0 (- snd x)).

(** An integer as the double it is. *)
Definition number_of (x : Z) : Z * Z := (x, 0).

(** The doubles of the machine, as the proof assistant has them, with which
    the definitions above are compared on examples. *)
Definition machine_double (z : Z) : PrimFloat.float :=
  PrimFloat.of_uint63 (Uint63.of_Z z).

Definition double_of_machine (x : PrimFloat.float) : option (Z * Z) :=
  match FloatOps.Prim2SF x with
  | SpecFloat.S754_zero _ => Some (0, 0)
  | SpecFloat.S754_finite negative m e => Some (if negative then Z.neg m else Z.pos m, e)
  | _ => None
  end.

(** [Math.floor(amountMsat * 0.001)] *)
Definition routing_fee (amountMsat : Z) : Z :=
  Math_floor (number_times amountMsat (number_literal 1 1000)).

(** [Math.floor(localBalanceMsat * 0.99)] *)
Definition spendable_share (localBalanceMsat : Z) : Z :=
  Math_floor (number_times localBalanceMsat (number_literal 99 100)).

(** ** [Array.prototype.sort]

    The sort is stable and, for a comparator that is a consistent ordering,
    returns the one stable sorted arrangement; insertion from the right
    computes it.  [cmp a b > 0] asks for [a] after [b]. *)
Section JsSort.
Context {A : Type} (cmp : A -> A -> Z).

Fixpoint sort_insert (x : A) (sorted : list A) : list A :=
  match sorted with
  | [] => [x]
  | y :: rest => if 0 <? cmp x y then y :: sort_insert x rest else x :: y :: rest
  end.

Fixpoint array_sort (l : list A) : list A :=
  match l with
  | [] => []
  | x :: rest => sort_insert x (array_sort rest)
  end.
End JsSort.

(** ** What a call draws from the platform *)

(** The two [crypto.randomBytes(32).toString('hex')] and the two
    [Math.floor(Math.random() * _)] of one [createChannel]. *)
Record ChannelDraw := mkChannelDraw {
  draw_channelId : string;
  draw_fundingTxid : string;
  draw_scid_tx : Z;
  draw_scid_vout : Z
}.

(** ** The operations of [LightningService] *)

(** The constructor; [generateNodeId] draws [node]. *)
Definition new_service (node : string) : State :=
  {| store := [];
     channels := [];
     payments := [];
     nodeInfo := {| nodeId := node; alias := "LDK MCP Node"; numChannels := 0;
                    numUsableChannels := 0; numPeers := 0; blockHeight := 800000;
                    syncedToChain := true; version := "0.0.124" |};
     timers := [] |}.

Definition createChannel (draw : ChannelDraw) (remotePubkey : string)
    (capacityMsat pushMsat : Z) (st : State) : Channel * State :=
  let channelId := draw_channelId draw in
  let fundingTxid := draw_fundingTxid draw in
  let channel :=
    {| channelId := channelId;
       shortChannelId := Some ("800000x" ++ number_to_string (draw_scid_tx draw)
                                 ++ "x" ++ number_to_string (draw_scid_vout draw))%string;
       remotePubkey := remotePubkey;
       fundingTxid := fundingTxid;
       capacityMsat := capacityMsat;
       localBalanceMsat := capacityMsat - pushMsat;
       remoteBalanceMsat := pushMsat;
       state := Open;
       isUsable := true |} in
  let ref := length (store st) in
  (channel,
   set_nodeInfo (add_numUsableChannels 1 (add_numChannels 1 (nodeInfo st)))
     (set_channels (store st ++ [channel])
        (map_set String.eqb channelId ref (channels st)) st)).

(** The delay handed to [setTimeout]. *)
Definition close_delay : Z := 5000.

Definition closeChannel (now : Z) (channelId : string) (st : State) : Outcome bool :=
  match map_get String.eqb channelId (channels st) with
  | None => Threw "Channel not found" st
  | Some channel =>
      let store' :=
        alter (fun c => set_isUsable false (set_state Closing c)) channel (store st) in
      Returned true
        (set_timers (timers st ++ [mkTimer (now + close_delay) channel channelId])
           (set_nodeInfo (add_numUsableChannels (-1) (nodeInfo st))
              (set_channels store' (channels st) st)))
  end.

(** The body of the callback queued by [closeChannel]. *)
Definition close_callback (t : Timer) (st : State) : State :=
  set_nodeInfo (add_numChannels (-1) (nodeInfo st))
    (set_channels (alter (set_state Closed) (target t) (store st))
       (map_delete String.eqb (closing_id t) (channels st)) st).

(** The event loop at time [now]: the delays are equal, so the callbacks
    come due in the order they were queued; the first one runs if it is due. *)
Definition run_timer (now : Z) (st : State) : State :=
  match timers st with
  | [] => st
  | t :: rest =>
      if due t <=? now then close_callback t (set_timers rest st) else st
  end.

Definition getChannelStatus (st : State) : list Channel :=
  omap (fun entry => store st !! snd entry) (channels st).

Definition getNodeInfo (st : State) : NodeInfo := nodeInfo st.

(** One turn of the loop of [getBalance]. *)
Definition balance_step (acc : Z * Z) (channel : Channel) : Z * Z :=
  let '(totalMsat, spendableMsat) := acc in
  if ChannelState_eqb (state channel) Open then
    (totalMsat + localBalanceMsat channel,
     if isUsable channel
     then spendableMsat + spendable_share (localBalanceMsat channel)
     else spendableMsat)
  else (totalMsat, spendableMsat).

(** [{ totalMsat, spendableMsat }] *)
Definition getBalance (st : State) : Z * Z :=
  fold_left balance_step (getChannelStatus st) (0, 0).

Definition listPayments (st : State) : list Payment :=
  array_sort (fun a b => timestamp b - timestamp a) (map_values (payments st)).

Definition estimateFee (amountMsat : Z) : FeeEstimate :=
  let baseFee := 1000 in
  let proportionalMillionths := 1000 in
  let estimatedFeeMsat :=
    baseFee
    + Math_floor (number_over (number_times amountMsat (number_of proportionalMillionths))
                    1000000) in
  {| baseFee := baseFee;
     proportionalMillionths := proportionalMillionths;
     estimatedFeeMsat := estimatedFeeMsat;
     estimatedDurationSeconds := 60 |}.

Section Bolt11.
(** [bolt11.decode]; a thrown error is given by its text. *)
Variable bolt11_decode : string -> DecodeResult.

(** [now] is [Date.now()], [preimage] the hex of [crypto.randomBytes(32)].
    A decoded request without a [payment_hash] tag would leave
    [paymentHash], declared a [string], [undefined]. *)
Definition payInvoice (now : Z) (preimage : string) (bolt11Invoice : string)
    (st : State) : Outcome Payment :=
  match bolt11_decode bolt11Invoice with
  | DecodeThrows error => Threw ("Failed to pay invoice: " ++ error)%string st
  | Decoded decoded =>
      match tag_data "payment_hash" (tags decoded) with
      | None => Untyped
      | Some paymentHash =>
          let amountMsat :=
            match millisatoshis decoded with Some a => a | None => 0 end in
          let description := tag_data "description" (tags decoded) in
          let payment :=
            {| paymentHash := paymentHash;
               amountMsat := amountMsat;
               status := Succeeded;
               timestamp := now;
               description := description;
               bolt11 := Some bolt11Invoice;
               feeMsat := Some (routing_fee amountMsat);
               paymentPreimage := Some preimage |} in
          Returned payment
            (set_payments (map_set String.eqb paymentHash payment (payments st)) st)
      end
  end.
End Bolt11.

(** ** Backup and restore *)

(** [JSON.stringify] leaves out the members whose value is [undefined]. *)
Definition defined_members (ms : list (string * option value)) : list (string * value) :=
  omap (fun m => pair (fst m) <$> snd m) ms.

Definition ChannelState_text (s : ChannelState) : string :=
  match s with
  | Pending => "pending"
  | Open => "open"
  | Closing => "closing"
  | Closed => "closed"
  | ForceClosing => "force_closing"
  end.

Definition PaymentStatus_text (s : PaymentStatus) : string :=
  match s with
  | PaymentPending => "pending"
  | Succeeded => "succeeded"
  | Failed => "failed"
  end.

Definition json_of_NodeInfo (ni : NodeInfo) : value :=
  VObj [("nodeId", VStr (nodeId ni)); ("alias", VStr (alias ni));
        ("numChannels", VNum (numChannels ni));
        ("numUsableChannels", VNum (numUsableChannels ni));
        ("numPeers", VNum (numPeers ni)); ("blockHeight", VNum (blockHeight ni));
        ("syncedToChain", VBool (syncedToChain ni)); ("version", VStr (version ni))].

Definition json_of_Channel (c : Channel) : value :=
  VObj (defined_members
    [("channelId", Some (VStr (channelId c)));
     ("shortChannelId", VStr <$> shortChannelId c);
     ("remotePubkey", Some (VStr (remotePubkey c)));
     ("fundingTxid", Some (VStr (fundingTxid c)));
     ("capacityMsat", Some (VNum (capacityMsat c)));
     ("localBalanceMsat", Some (VNum (localBalanceMsat c)));
     ("remoteBalanceMsat", Some (VNum (remoteBalanceMsat c)));
     ("state", Some (VStr (ChannelState_text (state c))));
     ("isUsable", Some (VBool (isUsable c)))]).

Definition json_of_Payment (p : Payment) : value :=
  VObj (defined_members
    [("paymentHash", Some (VStr (paymentHash p)));
     ("amountMsat", Some (VNum (amountMsat p)));
     ("status", Some (VStr (PaymentStatus_text (status p))));
     ("timestamp", Some (VNum (timestamp p)));
     ("description", VStr <$> description p);
     ("bolt11", VStr <$> bolt11 p);
     ("feeMsat", VNum <$> feeMsat p);
     ("paymentPreimage", VStr <$> paymentPreimage p)]).

(** A backup string, given by what
    [JSON.parse(Buffer.from(backup, 'base64').toString())] makes of it: a
    [SyntaxError] with its text, or the parsed value.  [Buffer.from] and
    [JSON.stringify] are the inverse on the values the service writes. *)
Inductive blob :=
  | Unparsable (error : string)
  | Parsed (state : value).

(** One [[key, value]] of [Array.from(map.entries())] after [JSON.stringify],
    and the same entry as [new Map] reads it back. *)
Definition entry_item {T} (enc : T -> value) (e : string * T) : value :=
  VArr [VStr (fst e); enc (snd e)].

Definition entry_pair {T} (enc : T -> value) (e : string * T) : value * value :=
  (VStr (fst e), enc (snd e)).

Definition channel_entries (st : State) : list value :=
  omap (fun entry =>
          (fun c => entry_item json_of_Channel (fst entry, c)) <$> store st !! snd entry)
       (channels st).

Definition payment_entries (st : State) : list value :=
  map (entry_item json_of_Payment) (payments st).

(** The object literal [state] of [backupState], as [JSON.stringify]
    writes it. *)
Definition backup_state (now : Z) (st : State) : value :=
  VObj [("nodeInfo", json_of_NodeInfo (nodeInfo st));
        ("channels", VArr (channel_entries st));
        ("payments", VArr (payment_entries st));
        ("timestamp", VNum now)].

Definition backupState (now : Z) (st : State) : blob :=
  Parsed (backup_state now st).

(** One element of the iterable given to [new Map]: it has to be an object,
    whose members [0] and [1] are the key and the value. *)
Definition entry_of (it : value) : option (value * value) :=
  match it with
  | VArr items => Some (item 0 items, item 1 items)
  | VObj members => Some (member "0" members, member "1" members)
  | _ => None
  end.

(** [new Map(iterable)]; [None] is the [TypeError] for something that is
    not iterable or yields something that is not an entry object. *)
Definition new_Map (iterable : value) : option (list (value * value)) :=
  match iterable with
  | VUndefined | VNull => Some []
  | VArr items =>
      fold_left
        (fun acc it =>
           m ← acc; e ← entry_of it; Some (map_set same_value_zero (fst e) (snd e) m))
        items (Some [])
  | VStr s => if String.eqb s "" then Some [] else None
  | _ => None
  end.

(** *** Parsed values seen through the declared types *)

Definition as_string (v : value) : option string :=
  match v with VStr s => Some s | _ => None end.

Definition as_number (v : value) : option Z :=
  match v with VNum n => Some n | _ => None end.

Definition as_boolean (v : value) : option bool :=
  match v with VBool b => Some b | _ => None end.

(** A member declared with [?]: absent, or of the type. *)
Definition as_optional {A} (as_type : value -> option A) (v : value) : option (option A) :=
  match v with
  | VUndefined => Some None
  | _ => Some <$> as_type v
  end.

Definition as_ChannelState (v : value) : option ChannelState :=
  s ← as_string v;
  if String.eqb s "pending" then Some Pending
  else if String.eqb s "open" then Some Open
  else if String.eqb s "closing" then Some Closing
  else if String.eqb s "closed" then Some Closed
  else if String.eqb s "force_closing" then Some ForceClosing
  else None.

Definition as_PaymentStatus (v : value) : option PaymentStatus :=
  s ← as_string v;
  if String.eqb s "pending" then Some PaymentPending
  else if String.eqb s "succeeded" then Some Succeeded
  else if String.eqb s "failed" then Some Failed
  else None.

Definition as_NodeInfo (v : value) : option NodeInfo :=
  match v with
  | VObj ms =>
      nodeId ← as_string (member "nodeId" ms);
      alias ← as_string (member "alias" ms);
      numChannels ← as_number (member "numChannels" ms);
      numUsableChannels ← as_number (member "numUsableChannels" ms);
      numPeers ← as_number (member "numPeers" ms);
      blockHeight ← as_number (member "blockHeight" ms);
      syncedToChain ← as_boolean (member "syncedToChain" ms);
      version ← as_string (member "version" ms);
      Some (mkNodeInfo nodeId alias numChannels numUsableChannels numPeers
              blockHeight syncedToChain version)
  | _ => None
  end.

Definition as_Channel (v : value) : option Channel :=
  match v with
  | VObj ms =>
      channelId ← as_string (member "channelId" ms);
      shortChannelId ← as_optional as_string (member "shortChannelId" ms);
      remotePubkey ← as_string (member "remotePubkey" ms);
      fundingTxid ← as_string (member "fundingTxid" ms);
      capacityMsat ← as_number (member "capacityMsat" ms);
      localBalanceMsat ← as_number (member "localBalanceMsat" ms);
      remoteBalanceMsat ← as_number (member "remoteBalanceMsat" ms);
      state ← as_ChannelState (member "state" ms);
      isUsable ← as_boolean (member "isUsable" ms);
      Some (mkChannel channelId shortChannelId remotePubkey fundingTxid capacityMsat
              localBalanceMsat remoteBalanceMsat state isUsable)
  | _ => None
  end.

Definition as_Payment (v : value) : option Payment :=
  match v with
  | VObj ms =>
      paymentHash ← as_string (member "paymentHash" ms);
      paymentPreimage ← as_optional as_string (member "paymentPreimage" ms);
      amountMsat ← as_number (member "amountMsat" ms);
      status ← as_PaymentStatus (member "status" ms);
      timestamp ← as_number (member "timestamp" ms);
      description ← as_optional as_string (member "description" ms);
      bolt11 ← as_optional as_string (member "bolt11" ms);
      feeMsat ← as_optional as_number (member "feeMsat" ms);
      Some (mkPayment paymentHash paymentPreimage amountMsat status timestamp
              description bolt11 feeMsat)
  | _ => None
  end.

(** A [Map] of parsed values as a [Map<string, T>]. *)
Definition as_registry {T} (as_type : value -> option T) (m : list (value * value))
    : option (list (string * T)) :=
  mapM (fun e => k ← as_string (fst e); v ← as_type (snd e); Some (k, v)) m.

(** The references of freshly built channel objects, in registry order. *)
Fixpoint register_from (ref : nat) (entries : list (string * Channel)) : list (string * nat) :=
  match entries with
  | [] => []
  | (k, _) :: rest => (k, ref) :: register_from (S ref) rest
  end.

Definition install_channels (entries : list (string * Channel)) (st : State) : State :=
  set_channels (store st ++ map snd entries)
    (register_from (length (store st)) entries) st.

(** The three assignments happen in source order; a [TypeError] in a later
    one leaves the earlier ones done. *)
Definition restoreState (backup : blob) (st : State) : Outcome bool :=
  match backup with
  | Unparsable error => Threw ("Failed to restore state: " ++ error)%string st
  | Parsed state =>
      match get_member state "nodeInfo" with
      | None =>
          Threw "Failed to restore state: TypeError: Cannot read properties of null" st
      | Some info =>
          match as_NodeInfo info with
          | None => Untyped
          | Some nodeInfo' =>
              let st1 := set_nodeInfo nodeInfo' st in
              match new_Map (read_member state "channels") with
              | None =>
                  Threw "Failed to restore state: TypeError: channels is not iterable" st1
              | Some cs =>
                  match as_registry as_Channel cs with
                  | None => Untyped
                  | Some channels' =>
                      let st2 := install_channels channels' st1 in
                      match new_Map (read_member state "payments") with
                      | None =>
                          Threw "Failed to restore state: TypeError: payments is not iterable" st2
                      | Some ps =>
                          match as_registry as_Payment ps with
                          | None => Untyped
                          | Some payments' => Returned true (set_payments payments' st2)
                          end
                      end
                  end
              end
          end
      end
  end.

(** What a successful restore leaves: the decoded content in place of the
    node info and of both registries, over fresh channel objects. *)
Definition restored (ni : NodeInfo) (cs : list (string * Channel))
    (ps : list (string * Payment)) (st : State) : State :=
  set_payments ps (install_channels cs (set_nodeInfo ni st)).

(** ** Sequences of ledger operations *)

(** The registry with its references followed: what [this.channels.entries()]
    yields. *)
Definition channel_registry (st : State) : list (string * Channel) :=
  omap (fun entry => pair (fst entry) <$> store st !! snd entry) (channels st).

(** The calls that change a service, with what each draws from the platform.
    [OpTimer] is a turn of the event loop; [OpRestore n] hands the [n]-th
    backup taken so far back to [restoreState]; [OpRestoreForeign] hands it
    any other string. *)
Inductive op :=
  | OpCreateChannel (draw : ChannelDraw) (remotePubkey : string) (capacityMsat pushMsat : Z)
  | OpCloseChannel (now : Z) (channelId : string)
  | OpTimer (now : Z)
  | OpPayInvoice (now : Z) (preimage bolt11Invoice : string)
  | OpBackup (now : Z)
  | OpRestore (n : nat)
  | OpRestoreForeign (backup : blob).

(** The sequences in which [restoreState] only ever receives backups the
    service itself has produced. *)
Definition own_backups_only (ops : list op) : bool :=
  forallb (fun o => match o with OpRestoreForeign _ => false | _ => true end) ops.

(** A service together with the backups it has handed out. *)
Record Session := mkSession {
  ledger : State;
  backups : list blob
}.

Section Runs.
Variable bolt11_decode : string -> DecodeResult.

(** A thrown error reaches the caller and the service lives on. *)
Definition step (o : op) (s : Session) : option Session :=
  match o with
  | OpCreateChannel draw remotePubkey capacityMsat pushMsat =>
      Some (mkSession
              (snd (createChannel draw remotePubkey capacityMsat pushMsat (ledger s)))
              (backups s))
  | OpCloseChannel now channelId =>
      st' ← outcome_state (closeChannel now channelId (ledger s));
      Some (mkSession st' (backups s))
  | OpTimer now => Some (mkSession (run_timer now (ledger s)) (backups s))
  | OpPayInvoice now preimage bolt11Invoice =>
      st' ← outcome_state (payInvoice bolt11_decode now preimage bolt11Invoice (ledger s));
      Some (mkSession st' (backups s))
  | OpBackup now =>
      Some (mkSession (ledger s) (backups s ++ [backupState now (ledger s)]))
  | OpRestore n =>
      match backups s !! n with
      | None => Some s
      | Some backup =>
          st' ← outcome_state (restoreState backup (ledger s));
          Some (mkSession st' (backups s))
      end
  | OpRestoreForeign backup =>
      st' ← outcome_state (restoreState backup (ledger s));
      Some (mkSession st' (backups s))
  end.

Fixpoint run (ops : list op) (s : Session) : option Session :=
  match ops with
  | [] => Some s
  | o :: rest => s' ← step o s; run rest s'
  end.
End Runs.

(** ** Invariants of the ledger *)

Definition balanced (c : Channel) : Prop :=
  localBalanceMsat c + remoteBalanceMsat c = capacityMsat c.

Definition usable_is_open (c : Channel) : Prop :=
  isUsable c = true -> state c = Open.

(** The shape of a registry: distinct keys, references that resolve. *)
Record registry_ok (st : State) : Prop := mk_registry_ok {
  channel_keys_distinct : NoDup (map_keys (channels st));
  payment_keys_distinct : NoDup (map_keys (payments st));
  references_resolve : Forall (fun entry => (snd entry < length (store st))%nat) (channels st)
}.

Record ledger_inv (st : State) : Prop := mk_ledger_inv {
  inv_registry : registry_ok st;
  inv_balanced : Forall balanced (store st);
  inv_usable : Forall usable_is_open (store st);
  inv_timers :
    Forall (fun t => exists c, store st !! target t = Some c /\ isUsable c = false) (timers st)
}.

Definition genuine_backup (b : blob) : Prop :=
  exists now st0, b = backupState now st0 /\ ledger_inv st0.

Definition session_inv (s : Session) : Prop :=
  ledger_inv (ledger s) /\ Forall genuine_backup (backups s).

(** The string keys of a [Map] of parsed values. *)
Definition string_keys (m : list (value * value)) : list string :=
  omap (fun e => as_string (fst e)) m.



(** The sums [getBalance] is specified by. *)
Definition sum_Z (l : list Z) : Z := fold_right Z.add 0 l.

Definition is_open (c : Channel) : bool := ChannelState_eqb (state c) Open.

Definition open_local_total (cs : list Channel) : Z :=
  sum_Z (map localBalanceMsat (List.filter is_open cs)).

Definition usable_spendable_total (cs : list Channel) : Z :=
  sum_Z (map (fun c => spendable_share (localBalanceMsat c))
             (List.filter isUsable cs)).

Definition open_usable_spendable_total (cs : list Channel) : Z :=
  sum_Z (map (fun c => spendable_share (localBalanceMsat c))
             (List.filter (fun c => is_open c && isUsable c) cs)).

(** ** The ledger over time *)

(** The event loop once every queued delay has passed: each queued callback
    gets its turn. *)
Definition drain_timers (now : Z) (st : State) : State :=
  Nat.iter (length (timers st)) (run_timer now) st.

(** No channel object is registered twice. *)
Definition refs_distinct (st : State) : Prop := NoDup (map snd (channels st)).







(** ** The tools over the ledger ([src/tools])

    Each tool answers with a JSON text made of the members below and of a
    fixed Swift example; the example is left out.  [args] is typed as the
    tool's [inputSchema] declares. *)

(** [Math.floor(msat / 1000)]: for the integers from 0 below [2^53] the
    floor of the double quotient is the quotient of the integers (lemma
    [msat_to_sats_exact]). *)
Definition msat_to_sats (msat : Z) : Z := msat / 1000.

(** [array.slice(0, end)] for an integer [end]: a negative [end] counts from
    the end of the array. *)
Definition slice_to {A} (finish : Z) (l : list A) : list A :=
  if finish <? 0
  then take (Z.to_nat (Z.max (Z.of_nat (length l) + finish) 0)) l
  else take (Z.to_nat finish) l.

(** What a tool that can fail answers: the payload with [success: true], or
    [success: false] with the message of the error. *)
Inductive ToolReply (A : Type) : Type :=
  | ToolSuccess (payload : A)
  | ToolFailure (error : string).
Arguments ToolSuccess {A} payload.
Arguments ToolFailure {A} error.

(** *** [ldk_list_payments] *)

Record PaymentSummary := mkPaymentSummary {
  summary_paymentHash : string;
  summary_paymentPreimage : option string;
  summary_amountSats : Z;
  summary_feeSats : Z;
  summary_status : PaymentStatus;
  summary_timestamp : Z;
  summary_description : option string
}.

(** [p.feeMsat ? Math.floor(p.feeMsat / 1000) : 0] *)
Definition payment_summary (p : Payment) : PaymentSummary :=
  {| summary_paymentHash := paymentHash p;
     summary_paymentPreimage := paymentPreimage p;
     summary_amountSats := msat_to_sats (amountMsat p);
     summary_feeSats :=
       match feeMsat p with
       | Some fee => if fee =? 0 then 0 else msat_to_sats fee
       | None => 0
       end;
     summary_status := status p;
     summary_timestamp := timestamp p;
     summary_description := description p |}.

(** [args.status && args.status !== 'all'] *)
Definition status_filter (wanted : option string) : option string :=
  match wanted with
  | Some s => if String.eqb s "" || String.eqb s "all" then None else Some s
  | None => None
  end.

(** The payments the tool reports, before they are summarised:
    [listPayments], the filter on [args.status], the cut at [args.limit]
    (skipped when the limit is absent or 0). *)
Definition listed_payments (wanted : option string) (limit : option Z) (st : State)
    : list Payment :=
  let payments := listPayments st in
  let payments :=
    match status_filter wanted with
    | Some s => List.filter (fun p => String.eqb (PaymentStatus_text (status p)) s) payments
    | None => payments
    end in
  match limit with
  | Some n => if n =? 0 then payments else slice_to n payments
  | None => payments
  end.

(** [{ count, payments }] *)
Definition listPaymentsTool (wanted : option string) (limit : option Z) (st : State)
    : Z * list PaymentSummary :=
  let payments := listed_payments wanted limit st in
  (Z.of_nat (length payments), map payment_summary payments).

(** *** [ldk_get_balance] *)

Record BalanceReport := mkBalanceReport {
  totalSats : Z;
  spendableSats : Z;
  inboundSats : Z;
  canSendMaxSats : Z;
  canReceiveMaxSats : Z
}.

(** The loop that adds up the remote balances of the usable channels. *)
Definition inbound_liquidity (cs : list Channel) : Z :=
  fold_left (fun inboundMsat channel =>
               if isUsable channel then inboundMsat + remoteBalanceMsat channel
               else inboundMsat)
            cs 0.

Definition getBalanceTool (st : State) : BalanceReport :=
  let balance := getBalance st in
  let inboundMsat := inbound_liquidity (getChannelStatus st) in
  {| totalSats := msat_to_sats (fst balance);
     spendableSats := msat_to_sats (snd balance);
     inboundSats := msat_to_sats inboundMsat;
     canSendMaxSats := msat_to_sats (snd balance);
     canReceiveMaxSats := msat_to_sats inboundMsat |}.

(** *** [ldk_node_info] *)

Record NodeReport := mkNodeReport {
  report_nodeId : string;
  report_alias : string;
  report_version : string;
  report_blockHeight : Z;
  report_syncedToChain : bool;
  report_channels_total : Z;
  report_channels_usable : Z;
  report_totalSats : Z;
  report_spendableSats : Z;
  report_peers : Z
}.

Definition getNodeInfoTool (st : State) : NodeReport :=
  let info := getNodeInfo st in
  let balance := getBalance st in
  {| report_nodeId := nodeId info;
     report_alias := alias info;
     report_version := version info;
     report_blockHeight := blockHeight info;
     report_syncedToChain := syncedToChain info;
     report_channels_total := numChannels info;
     report_channels_usable := numUsableChannels info;
     report_totalSats := msat_to_sats (fst balance);
     report_spendableSats := msat_to_sats (snd balance);
     report_peers := numPeers info |}.

(** *** [ldk_channel_status] *)

Record ChannelLine := mkChannelLine {
  line_channelId : string;
  line_shortChannelId : option string;
  line_remotePubkey : string;
  line_state : ChannelState;
  line_isUsable : bool;
  line_capacitySats : Z;
  line_localBalanceSats : Z;
  line_remoteBalanceSats : Z
}.

Record ChannelStatusReport := mkChannelStatusReport {
  totalChannels : Z;
  usableChannels : Z;
  totalCapacitySats : Z;
  totalLocalSats : Z;
  totalRemoteSats : Z;
  channel_lines : list ChannelLine
}.

Definition channel_line (c : Channel) : ChannelLine :=
  {| line_channelId := channelId c;
     line_shortChannelId := shortChannelId c;
     line_remotePubkey := remotePubkey c;
     line_state := state c;
     line_isUsable := isUsable c;
     line_capacitySats := msat_to_sats (capacityMsat c);
     line_localBalanceSats := msat_to_sats (localBalanceMsat c);
     line_remoteBalanceSats := msat_to_sats (remoteBalanceMsat c) |}.

(** [channels.reduce((sum, c) => sum + c.field, 0)] *)
Definition reduce_sum (field : Channel -> Z) (cs : list Channel) : Z :=
  fold_left (fun sum c => sum + field c) cs 0.

(** [args.includeOffline === false] keeps the usable channels only. *)
Definition getChannelStatusTool (includeOffline : option bool) (st : State)
    : ChannelStatusReport :=
  let cs := getChannelStatus st in
  let filteredChannels :=
    match includeOffline with
    | Some false => List.filter isUsable cs
    | _ => cs
    end in
  let totalCapacity := reduce_sum capacityMsat cs in
  let totalLocal := reduce_sum localBalanceMsat cs in
  let totalRemote := reduce_sum remoteBalanceMsat cs in
  {| totalChannels := Z.of_nat (length cs);
     usableChannels := Z.of_nat (length (List.filter isUsable cs));
     totalCapacitySats := msat_to_sats totalCapacity;
     totalLocalSats := msat_to_sats totalLocal;
     totalRemoteSats := msat_to_sats totalRemote;
     channel_lines := map channel_line filteredChannels |}.

(** *** [ldk_create_channel] *)

Record ChannelSummary := mkChannelSummary {
  created_channelId : string;
  created_shortChannelId : option string;
  created_fundingTxid : string;
  created_capacitySats : Z;
  created_localBalanceSats : Z;
  created_remoteBalanceSats : Z;
  created_state : ChannelState
}.

(** Whether an integer is a double: below [2^53] every integer is, above
    only those that fit a 53-bit mantissa. *)
Definition is_number (z : Z) : bool := Math_floor (binary64 z 1) =? z.

(** [Math.floor(msat / 1000)] for a number that may lie above [2^53]. *)
Definition floor_sats (msat : Z) : Z :=
  Math_floor (number_over (number_of msat) 1000).

(** [args.capacitySats * 1000] and [args.pushSats * 1000] are products of
    doubles.  The code does not apply the default the schema declares for
    [args.pushSats]: when it is absent the push is [undefined * 1000], not a
    number, and the call is not followed ([None]).  [createChannel]
    subtracts the push from the capacity; the ledger keeps amounts as
    integers, and where the difference of the two products is not a double
    and would itself be rounded, the call is not followed either. *)
Definition createChannelTool (draw : ChannelDraw) (remotePubkey : string)
    (capacitySats : Z) (pushSats : option Z) (st : State)
    : option (ChannelSummary * State) :=
  push ← pushSats;
  let capacity := Math_floor (number_times capacitySats (number_of 1000)) in
  let pushed := Math_floor (number_times push (number_of 1000)) in
  if is_number (capacity - pushed) then
    let created := createChannel draw remotePubkey capacity pushed st in
    let channel := fst created in
    Some ({| created_channelId := channelId channel;
             created_shortChannelId := shortChannelId channel;
             created_fundingTxid := fundingTxid channel;
             created_capacitySats := floor_sats (capacityMsat channel);
             created_localBalanceSats := floor_sats (localBalanceMsat channel);
             created_remoteBalanceSats := floor_sats (remoteBalanceMsat channel);
             created_state := state channel |},
          snd created)
  else None.

(** *** [ldk_close_channel] *)

Record CloseReport := mkCloseReport {
  closed_channelId : string;
  closeType : string;
  close_message : string
}.

Definition closeChannelTool (now : Z) (channelId : string) (force : option bool)
    (st : State) : option (ToolReply CloseReport * State) :=
  match closeChannel now channelId st with
  | Returned _ st' =>
      Some (ToolSuccess
              {| closed_channelId := channelId;
                 closeType := if default false force then "force" else "cooperative";
                 close_message := "Channel closing initiated" |},
            st')
  | Threw error st' => Some (ToolFailure error, st')
  | Untyped => None
  end.

(** *** [ldk_pay_invoice] *)

Record PaidReport := mkPaidReport {
  paid_paymentHash : string;
  paid_paymentPreimage : option string;
  paid_amountSats : Z;
  paid_feeSats : Z;
  paid_status : PaymentStatus;
  paid_timestamp : Z
}.

Section PayTool.
Variable bolt11_decode : string -> DecodeResult.

(** [Math.floor((payment.feeMsat || 0) / 1000)] *)
Definition payInvoiceTool (now : Z) (preimage invoice : string) (st : State)
    : option (ToolReply PaidReport * State) :=
  match payInvoice bolt11_decode now preimage invoice st with
  | Returned payment st' =>
      Some (ToolSuccess
              {| paid_paymentHash := paymentHash payment;
                 paid_paymentPreimage := paymentPreimage payment;
                 paid_amountSats := msat_to_sats (amountMsat payment);
                 paid_feeSats := msat_to_sats (default 0 (feeMsat payment));
                 paid_status := status payment;
                 paid_timestamp := timestamp payment |},
            st')
  | Threw error st' => Some (ToolFailure error, st')
  | Untyped => None
  end.
End PayTool.

(** *** [ldk_backup_state] *)

(** Of the answer to a backup, the member [backupData]; [backupSize] and
    [timestamp] are about its text and the clock.  An answer to a restore
    carries the flag [restoreState] returned. *)
Inductive BackupReport :=
  | BackupTaken (backupData : blob)
  | RestoreDone (success : bool).

Definition double_quote : string := String (Ascii.ascii_of_nat 34) EmptyString.

Definition invalid_action : string :=
  ("Invalid action. Use " ++ double_quote ++ "backup" ++ double_quote ++ " or "
     ++ double_quote ++ "restore" ++ double_quote)%string.

(** [backupData] is [None] when the argument is absent or empty. *)
Definition backupStateTool (now : Z) (action : string) (backupData : option blob)
    (st : State) : option (ToolReply BackupReport * State) :=
  if String.eqb action "backup" then
    Some (ToolSuccess (BackupTaken (backupState now st)), st)
  else if String.eqb action "restore" then
    match backupData with
    | None => Some (ToolFailure "Backup data required for restore", st)
    | Some backup =>
        match restoreState backup st with
        | Returned success st' => Some (ToolSuccess (RestoreDone success), st')
        | Threw error st' => Some (ToolFailure error, st')
        | Untyped => None
        end
    end
  else Some (ToolFailure invalid_action, st).

(** ** The services of the tool modules

    Every tool module builds a [LightningService] of its own
    ([const lightningService = new LightningService()]), so each tool works
    on its own ledger. *)

Record Services := mkServices {
  of_createChannel : State;
  of_closeChannel : State;
  of_payInvoice : State;
  of_getBalance : State;
  of_listPayments : State;
  of_getNodeInfo : State;
  of_getChannelStatus : State;
  of_backupState : State
}.

(** The node identifiers the eight constructors draw. *)
Record NodeDraws := mkNodeDraws {
  node_createChannel : string;
  node_closeChannel : string;
  node_payInvoice : string;
  node_getBalance : string;
  node_listPayments : string;
  node_getNodeInfo : string;
  node_getChannelStatus : string;
  node_backupState : string
}.

Definition start_services (nodes : NodeDraws) : Services :=
  {| of_createChannel := new_service (node_createChannel nodes);
     of_closeChannel := new_service (node_closeChannel nodes);
     of_payInvoice := new_service (node_payInvoice nodes);
     of_getBalance := new_service (node_getBalance nodes);
     of_listPayments := new_service (node_listPayments nodes);
     of_getNodeInfo := new_service (node_getNodeInfo nodes);
     of_getChannelStatus := new_service (node_getChannelStatus nodes);
     of_backupState := new_service (node_backupState nodes) |}.

(** A call of one of the ledger tools with its arguments and what it draws
    from the platform, or a turn of the event loop. *)
Inductive call :=
  | CallCreateChannel (draw : ChannelDraw) (remotePubkey : string)
      (capacitySats : Z) (pushSats : option Z)
  | CallCloseChannel (now : Z) (channelId : string) (force : option bool)
  | CallPayInvoice (now : Z) (preimage invoice : string)
  | CallGetBalance
  | CallListPayments (wanted : option string) (limit : option Z)
  | CallGetNodeInfo
  | CallGetChannelStatus (includeOffline : option bool)
  | CallBackupState (now : Z) (action : string) (backupData : option blob)
  | EventLoop (now : Z).

Inductive answer :=
  | AnswerCreateChannel (r : ChannelSummary)
  | AnswerCloseChannel (r : ToolReply CloseReport)
  | AnswerPayInvoice (r : ToolReply PaidReport)
  | AnswerGetBalance (r : BalanceReport)
  | AnswerListPayments (count : Z) (payments : list PaymentSummary)
  | AnswerGetNodeInfo (r : NodeReport)
  | AnswerGetChannelStatus (r : ChannelStatusReport)
  | AnswerBackupState (r : ToolReply BackupReport)
  | NoAnswer.

Definition map_services (f : State -> State) (srv : Services) : Services :=
  {| of_createChannel := f (of_createChannel srv);
     of_closeChannel := f (of_closeChannel srv);
     of_payInvoice := f (of_payInvoice srv);
     of_getBalance := f (of_getBalance srv);
     of_listPayments := f (of_listPayments srv);
     of_getNodeInfo := f (of_getNodeInfo srv);
     of_getChannelStatus := f (of_getChannelStatus srv);
     of_backupState := f (of_backupState srv) |}.

Definition set_of_createChannel (st : State) (srv : Services) : Services :=
  mkServices st (of_closeChannel srv) (of_payInvoice srv) (of_getBalance srv)
    (of_listPayments srv) (of_getNodeInfo srv) (of_getChannelStatus srv)
    (of_backupState srv).

Definition set_of_closeChannel (st : State) (srv : Services) : Services :=
  mkServices (of_createChannel srv) st (of_payInvoice srv) (of_getBalance srv)
    (of_listPayments srv) (of_getNodeInfo srv) (of_getChannelStatus srv)
    (of_backupState srv).

Definition set_of_payInvoice (st : State) (srv : Services) : Services :=
  mkServices (of_createChannel srv) (of_closeChannel srv) st (of_getBalance srv)
    (of_listPayments srv) (of_getNodeInfo srv) (of_getChannelStatus srv)
    (of_backupState srv).

Definition set_of_backupState (st : State) (srv : Services) : Services :=
  mkServices (of_createChannel srv) (of_closeChannel srv) (of_payInvoice srv)
    (of_getBalance srv) (of_listPayments srv) (of_getNodeInfo srv)
    (of_getChannelStatus srv) st.

Section Serving.
Variable bolt11_decode : string -> DecodeResult.

(** One call: the tool runs on the service of its module. *)
Definition serve (c : call) (srv : Services) : option (answer * Services) :=
  match c with
  | CallCreateChannel draw remotePubkey capacitySats pushSats =>
      r ← createChannelTool draw remotePubkey capacitySats pushSats (of_createChannel srv);
      Some (AnswerCreateChannel (fst r), set_of_createChannel (snd r) srv)
  | CallCloseChannel now channelId force =>
      r ← closeChannelTool now channelId force (of_closeChannel srv);
      Some (AnswerCloseChannel (fst r), set_of_closeChannel (snd r) srv)
  | CallPayInvoice now preimage invoice =>
      r ← payInvoiceTool bolt11_decode now preimage invoice (of_payInvoice srv);
      Some (AnswerPayInvoice (fst r), set_of_payInvoice (snd r) srv)
  | CallGetBalance => Some (AnswerGetBalance (getBalanceTool (of_getBalance srv)), srv)
  | CallListPayments wanted limit =>
      let r := listPaymentsTool wanted limit (of_listPayments srv) in
      Some (AnswerListPayments (fst r) (snd r), srv)
  | CallGetNodeInfo => Some (AnswerGetNodeInfo (getNodeInfoTool (of_getNodeInfo srv)), srv)
  | CallGetChannelStatus includeOffline =>
      Some (AnswerGetChannelStatus
              (getChannelStatusTool includeOffline (of_getChannelStatus srv)), srv)
  | CallBackupState now action backupData =>
      r ← backupStateTool now action backupData (of_backupState srv);
      Some (AnswerBackupState (fst r), set_of_backupState (snd r) srv)
  | EventLoop now => Some (NoAnswer, map_services (run_timer now) srv)
  end.

(** A sequence of calls, with the answers in order. *)
Fixpoint serve_all (calls : list call) (srv : Services) : option (list answer * Services) :=
  match calls with
  | [] => Some ([], srv)
  | c :: rest =>
      r ← serve c srv;
      rs ← serve_all rest (snd r);
      Some (fst r :: fst rs, snd rs)
  end.
End Serving.

(** The services no tool call can change: their tools only read, or, for
    [closeChannel], need a channel that only another module's service
    could hold. *)
Definition untouched_services (nodes : NodeDraws) (srv : Services) : Prop :=
  of_closeChannel srv = new_service (node_closeChannel nodes)
  /\ of_getBalance srv = new_service (node_getBalance nodes)
  /\ of_listPayments srv = new_service (node_listPayments nodes)
  /\ of_getNodeInfo srv = new_service (node_getNodeInfo nodes)
  /\ of_getChannelStatus srv = new_service (node_getChannelStatus nodes).

(** What the tools over those services answer. *)
Definition empty_ledger_answer (nodes : NodeDraws) (a : answer) : Prop :=
  match a with
  | AnswerCloseChannel r => r = ToolFailure "Channel not found"
  | AnswerGetBalance r => r = mkBalanceReport 0 0 0 0 0
  | AnswerListPayments count payments => count = 0 /\ payments = []
  | AnswerGetNodeInfo r => r = getNodeInfoTool (new_service (node_getNodeInfo nodes))
  | AnswerGetChannelStatus r => r = mkChannelStatusReport 0 0 0 0 0 []
  | _ => True
  end.


(** ** Sample data

    A decoder, invoices and draws on which the statements below are run. *)

Definition sample_invoice : string := "lntb2500n1sample".

Definition sample_decode (text : string) : DecodeResult :=
  if String.eqb text sample_invoice then
    Decoded {| tags := [mkTag "payment_hash" "0001020304050607";
                        mkTag "description" "coffee";
                        mkTag "expire_time" "3600"];
               millisatoshis := Some 250000 |}
  else DecodeThrows "Error: Not a proper lightning payment request".

Definition sample_draw : ChannelDraw :=
  {| draw_channelId := "c0ffee"; draw_fundingTxid := "f00d";
     draw_scid_tx := 417; draw_scid_vout := 3 |}.

Definition sample_peer : string := "02peer".

Definition fresh_session (node : string) : Session :=
  mkSession (new_service node) [].

(** A service after one channel and one payment. *)
Definition sample_ledger : State :=
  let opened :=
    snd (createChannel sample_draw sample_peer 1000000 100000 (new_service "02aa")) in
  default opened
    (outcome_state (payInvoice sample_decode 1700000000000 "aabb" sample_invoice opened)).






(** A backup whose text parses and whose [channels] member is a number. *)
Definition foreign_info : NodeInfo :=
  {| nodeId := "03ff"; alias := "someone else"; numChannels := 7;
     numUsableChannels := 7; numPeers := 0; blockHeight := 800000;
     syncedToChain := true; version := "0.0.124" |}.

Definition torn_state : value :=
  VObj [("nodeInfo", json_of_NodeInfo foreign_info);
        ("channels", VNum 5);
        ("payments", VArr []);
        ("timestamp", VNum 1700000000000)].



(** A service with one channel, and the same once [closeChannel] has
    returned. *)
Definition sample_opened : State :=
  snd (createChannel sample_draw sample_peer 1000000 100000 (new_service "02aa")).

Definition sample_closing : State :=
  default sample_opened (outcome_state (closeChannel 1000 "c0ffee" sample_opened)).

(** The same invoice paid a second time. *)
Definition sample_repayment : Payment :=
  {| paymentHash := "0001020304050607";
     paymentPreimage := Some "ccdd";
     amountMsat := 250000;
     status := Succeeded;
     timestamp := 1700000005000;
     description := Some "coffee";
     bolt11 := Some sample_invoice;
     feeMsat := Some 250 |}.

Definition sample_repaid : State :=
  set_payments [("0001020304050607", sample_repayment)] sample_ledger.

(** The backup of the open channel handed back while its close is pending. *)
Definition sample_reopened : State :=
  restored (nodeInfo sample_opened) (channel_registry sample_opened)
    (payments sample_opened) sample_closing.

(** Eight services and a sequence of calls to their tools. *)
Definition sample_nodes : NodeDraws :=
  mkNodeDraws "02a1" "02a2" "02a3" "02a4" "02a5" "02a6" "02a7" "02a8".

Definition sample_calls : list call :=
  [CallCreateChannel sample_draw sample_peer 20000 (Some 0);
   CallPayInvoice 1700000000000 "aabb" sample_invoice;
   CallCloseChannel 1700000001000 "c0ffee" None;
   CallGetBalance;
   CallListPayments None None;
   CallBackupState 1700000002000 "backup" None].

Definition sample_served : list answer * Services :=
  default ([], start_services sample_nodes)
    (serve_all sample_decode sample_calls (start_services sample_nodes)).

(** An invoice over an amount at which the double product rounds up. *)
Definition large_invoice : string := "lntb9007199254739999p1sample".

Definition large_decode (text : string) : DecodeResult :=
  if String.eqb text large_invoice then
    Decoded {| tags := [mkTag "payment_hash" "08090a0b0c0d0e0f"];
               millisatoshis := Some 9007199254739999 |}
  else DecodeThrows "Error: Not a proper lightning payment request".

(** A backup of another service: under the identifier [c0ffee] a channel
    whose balances do not add up to its capacity, and a second channel. *)
Definition skewed_channel : Channel :=
  {| channelId := "c0ffee"; shortChannelId := None; remotePubkey := sample_peer;
     fundingTxid := "f00d"; capacityMsat := 1000000; localBalanceMsat := 1;
     remoteBalanceMsat := 1; state := Open; isUsable := true |}.

Definition other_channel : Channel :=
  {| channelId := "beef"; shortChannelId := None; remotePubkey := "03other";
     fundingTxid := "feed"; capacityMsat := 40000; localBalanceMsat := 30000;
     remoteBalanceMsat := 10000; state := Open; isUsable := true |}.

Definition skewed_backup : blob :=
  Parsed (VObj [("nodeInfo", json_of_NodeInfo foreign_info);
                ("channels", VArr [entry_item json_of_Channel ("c0ffee", skewed_channel);
                                   entry_item json_of_Channel ("beef", other_channel)]);
                ("payments", VArr []);
                ("timestamp", VNum 1700000000000)]).

(** A run in which a foreign backup of two channels is restored over a
    channel, the first of the restored channels is closed and a third
    channel is created. *)
Definition foreign_ops : list op :=
  [OpCreateChannel sample_draw sample_peer 1000000 100000;
   OpRestoreForeign skewed_backup;
   OpCloseChannel 1700000001000 "c0ffee";
   OpCreateChannel (mkChannelDraw "abba" "f00d" 5 1) sample_peer 70000 0].

Definition session_foreign : Session :=
  default (fresh_session "02aa") (run sample_decode foreign_ops (fresh_session "02aa")).

(** * Properties *)

(** ** The embedding on concrete inputs *)

Example createChannel_sample :
  fst (createChannel sample_draw sample_peer 1000000 100000 (new_service "02aa"))
  = {| channelId := "c0ffee"; shortChannelId := Some "800000x417x3";
       remotePubkey := "02peer"; fundingTxid := "f00d"; capacityMsat := 1000000;
       localBalanceMsat := 900000; remoteBalanceMsat := 100000;
       state := Open; isUsable := true |}.
Proof. reflexivity. Qed.

Example new_Map_of_a_number : new_Map (VNum 5) = None.
Proof. reflexivity. Qed.

Example new_Map_of_nothing : new_Map VUndefined = Some [].
Proof. reflexivity. Qed.

Example new_Map_of_a_non_entry : new_Map (VArr [VArr [VStr "a"; VNum 1]; VNum 7]) = None.
Proof. reflexivity. Qed.

Example new_Map_keeps_first_position :
  new_Map (VArr [VArr [VStr "a"; VNum 1]; VArr [VStr "b"; VNum 2]; VArr [VStr "a"; VNum 3]])
  = Some [(VStr "a", VNum 3); (VStr "b", VNum 2)].
Proof. reflexivity. Qed.

Example array_sort_is_stable :
  array_sort (fun a b => fst b - fst a) [(1, "a"); (3, "b"); (1, "c"); (3, "d"); (2, "e")]
  = [(3, "b"); (3, "d"); (2, "e"); (1, "a"); (1, "c")].
Proof. reflexivity. Qed.

Example restoreState_unparsable :
  restoreState (Unparsable "SyntaxError: Unexpected token") sample_ledger
  = Threw "Failed to restore state: SyntaxError: Unexpected token" sample_ledger.
Proof. reflexivity. Qed.

Example restoreState_of_null :
  outcome_state (restoreState (Parsed VNull) sample_ledger) = Some sample_ledger.
Proof. reflexivity. Qed.

Example payInvoice_sample :
  listPayments sample_ledger
  = [{| paymentHash := "0001020304050607"; paymentPreimage := Some "aabb";
        amountMsat := 250000; status := Succeeded; timestamp := 1700000000000;
        description := Some "coffee"; bolt11 := Some sample_invoice;
        feeMsat := Some 250 |}].
Proof. reflexivity. Qed.

(** ** Double precision

    What the rounding of [binary64] guarantees, and the ranges in which the
    floors the code takes in doubles are the floors of the integers. *)

Lemma round_half_even_near (n d : Z) :
  0 < d -> 2 * n - d <= 2 * (d * round_half_even n d) <= 2 * n + d.
Proof.
  intros Hd. unfold round_half_even.
  pose proof (Z.div_mod n d ltac:(lia)) as Hdiv.
  pose proof (Z.mod_pos_bound n d Hd) as Hmod.
  destruct (Z.ltb_spec (2 * (n mod d)) d); [lia|].
  destruct (Z.ltb_spec d (2 * (n mod d))); [lia|].
  destruct (Z.even (n / d)); lia.
Qed.

Lemma round_half_even_exact (k d : Z) : 0 < d -> round_half_even (k * d) d = k.
Proof.
  intros Hd. unfold round_half_even.
  rewrite Z.div_mul, Z.mod_mul by lia.
  destruct (Z.ltb_spec (2 * 0) d); [reflexivity|lia].
Qed.

(** The exponent [binary64] chooses puts the quotient between [2^52] and
    [2^53] mantissa units. *)
Lemma binary64_pos (n d : Z) :
  0 < n -> 0 < d ->
  exists shift log,
    0 < shift /\ 0 <= log
    /\ binary64 n d
       = (round_half_even (n * 2 ^ (shift + 52)) (d * 2 ^ log), log - shift - 52)
    /\ d * 2 ^ log <= n * 2 ^ shift < 2 * (d * 2 ^ log).
Proof.
  intros Hn Hd. exists (Z.log2 d + 1), (Z.log2 (n * 2 ^ (Z.log2 d + 1) / d)).
  pose proof (Z.log2_nonneg d) as Hld.
  split; [lia|]. split; [apply Z.log2_nonneg|]. split.
  { unfold binary64. destruct (Z.eqb_spec n 0) as [->|_]; [lia|].
    rewrite Z.abs_eq, Z.sgn_pos, Z.mul_1_l by lia. reflexivity. }
  set (shift := Z.log2 d + 1).
  set (w := n * 2 ^ shift / d).
  assert (Hshift : d < 2 ^ shift).
  { destruct (Z.log2_spec d Hd) as [_ Hlt]. unfold shift. now rewrite <- Z.add_1_r in Hlt. }
  assert (Hpow : 0 < 2 ^ shift) by (apply Z.pow_pos_nonneg; lia).
  assert (Hw : 1 <= w).
  { unfold w. apply Z.div_le_lower_bound; [exact Hd|]. nia. }
  destruct (Z.log2_spec w ltac:(lia)) as [Hlo Hhi].
  rewrite <- Z.add_1_r, Z.pow_add_r, Z.pow_1_r in Hhi by (try apply Z.log2_nonneg; lia).
  pose proof (Z.mul_div_le (n * 2 ^ shift) d Hd) as Hle.
  pose proof (Z.mul_succ_div_gt (n * 2 ^ shift) d Hd) as Hgt.
  fold w in Hle, Hgt. nia.
Qed.

(** [Math.floor] of the double nearest to a positive [n / d] below [2^53]
    is [Q] as soon as [n / d] lies between [Q] and [Q + 1] with half a
    mantissa unit to spare on either side. *)
Lemma Math_floor_binary64 (n d Q : Z) :
  0 < n -> 0 < d -> n < 9007199254740992 * d ->
  18014398509481984 * (d * Q - n) <= n ->
  n < 9007199254740992 * (d * (Q + 1) - n) ->
  Math_floor (binary64 n d) = Q.
Proof.
  intros Hn Hd Hsmall Hlow Hhigh.
  destruct (binary64_pos n d Hn Hd) as (J & L & HJ & HL & -> & Hlo & Hhi).
  set (M := round_half_even _ _).
  assert (Hp52 : 2 ^ 52 = 4503599627370496) by reflexivity.
  assert (HpJ : 0 < 2 ^ J) by (apply Z.pow_pos_nonneg; lia).
  assert (HpL : 0 < 2 ^ L) by (apply Z.pow_pos_nonneg; lia).
  assert (He : L - J - 52 <= 0).
  { destruct (Z.le_gt_cases L (J + 52)) as [|Hgt]; [lia|exfalso].
    assert (Hpow : 2 ^ (J + 53) <= 2 ^ L) by (apply Z.pow_le_mono_r; lia).
    rewrite Z.pow_add_r in Hpow by lia.
    change (2 ^ 53) with 9007199254740992 in Hpow. nia. }
  assert (Hfloor : Math_floor (M, L - J - 52) = M / 2 ^ (- (L - J - 52))).
  { unfold Math_floor. cbn [fst snd].
    destruct (Z.leb_spec 0 (L - J - 52)) as [Hz|_]; [|reflexivity].
    replace (L - J - 52) with 0 by lia. simpl. now rewrite Z.mul_1_r, Z.div_1_r. }
  rewrite Hfloor.
  set (E := 2 ^ (- (L - J - 52))).
  set (T := 2 ^ (J + 52)) in *.
  set (D := d * 2 ^ L) in *.
  assert (HE : 0 < E) by (apply Z.pow_pos_nonneg; lia).
  assert (HT : T = 2 ^ J * 4503599627370496).
  { unfold T. rewrite Z.pow_add_r by lia. now rewrite Hp52. }
  assert (HDE : D * E = d * T).
  { unfold D, E, T. rewrite <- Z.mul_assoc, <- Z.pow_add_r by lia.
    f_equal. f_equal. lia. }
  assert (HD : 0 < D) by (unfold D; nia).
  pose proof (round_half_even_near (n * T) D HD) as Hnear. fold M in Hnear.
  assert (HN : D * 4503599627370496 <= n * T < D * 9007199254740992) by nia.
  symmetry. apply (Z.div_unique _ _ _ (M - E * Q)); [left|lia].
  split.
  - destruct (Z.le_gt_cases (E * Q) M) as [|Hgt]; [lia|exfalso].
    assert (K1 : D * M <= D * (E * Q - 1)) by (apply Z.mul_le_mono_nonneg_l; lia).
    assert (K2 : D * (E * Q - 1) = d * T * Q - D) by (rewrite <- HDE; ring).
    assert (K3 : 18014398509481984 * (d * Q - n) * T <= n * T)
      by (apply Z.mul_le_mono_nonneg_r; lia).
    lia.
  - destruct (Z.le_gt_cases (E * (Q + 1)) M) as [Hge|]; [exfalso|lia].
    assert (K1 : D * (E * (Q + 1)) <= D * M) by (apply Z.mul_le_mono_nonneg_l; lia).
    assert (K2 : D * (E * (Q + 1)) = d * T * (Q + 1)) by (rewrite <- HDE; ring).
    assert (K3 : n * T < 9007199254740992 * (d * (Q + 1) - n) * T)
      by (apply Z.mul_lt_mono_pos_r; lia).
    lia.
Qed.


(** An integer below [2^53] is a double. *)
Lemma binary64_integer (z : Z) :
  0 < z < 9007199254740992 ->
  exists unit shift,
    0 < unit /\ 0 <= shift /\ unit = 2 ^ shift
    /\ binary64 z 1 = (z * unit, - shift).
Proof.
  intros Hz. unfold binary64.
  destruct (Z.eqb_spec z 0) as [->|_]; [lia|].
  rewrite Z.abs_eq, Z.sgn_pos, Z.mul_1_l by lia.
  change (Z.log2 1 + 1) with 1. rewrite Z.div_1_r, Z.mul_1_l.
  set (L := Z.log2 (z * 2 ^ 1)).
  assert (HL : 0 <= L <= 53).
  { split; [apply Z.log2_nonneg|].
    assert (L < 54); [|lia]. apply Z.log2_lt_pow2; [lia|].
    change (2 ^ 54) with 18014398509481984. change (2 ^ 1) with 2. lia. }
  exists (2 ^ (53 - L)), (53 - L).
  split; [apply Z.pow_pos_nonneg; lia|]. split; [lia|]. split; [reflexivity|].
  f_equal; [|lia].
  replace (z * 2 ^ (1 + 52)) with (z * 2 ^ (53 - L) * 2 ^ L).
  - apply round_half_even_exact. apply Z.pow_pos_nonneg; lia.
  - rewrite <- Z.mul_assoc, <- Z.pow_add_r by lia. f_equal. f_equal. lia.
Qed.

Lemma Math_floor_integer (z : Z) :
  0 <= z < 9007199254740992 -> Math_floor (binary64 z 1) = z.
Proof.
  intros Hz. destruct (Z.eq_dec z 0) as [->|Hnz]; [reflexivity|].
  destruct (binary64_integer z ltac:(lia)) as (unit & shift & Hunit & Hshift & Hu & ->).
  unfold Math_floor. cbn [fst snd].
  destruct (Z.leb_spec 0 (- shift)) as [Hzero|_].
  - replace shift with 0 in * by lia. subst unit. simpl. lia.
  - rewrite Z.opp_involutive.
    subst unit. apply Z.div_mul. apply Z.pow_nonzero; lia.
Qed.

(** [Math.floor(x / y)] for an integer [x] below [2^53] and a positive
    integer [y] is the quotient of the integers. *)
Lemma Math_floor_quotient (x y : Z) :
  0 <= x < 9007199254740992 -> 0 < y ->
  Math_floor (binary64 x y) = x / y.
Proof.
  intros Hx Hy. destruct (Z.eq_dec x 0) as [->|Hnz].
  { now rewrite Z.div_0_l by lia. }
  pose proof (Z.div_mod x y ltac:(lia)) as Hdiv.
  pose proof (Z.mod_pos_bound x y Hy) as Hmod.
  apply Math_floor_binary64; try lia; nia.
Qed.

Lemma literal_0_001 : number_literal 1 1000 = (4611686018427388, -62).
Proof. vm_compute. reflexivity. Qed.


(** Up to 7.5 * 10^15 the fee is the thousandth of the amount, rounded
    down. *)
Lemma routing_fee_exact (amount : Z) :
  0 <= amount <= 7500000000000000 -> routing_fee amount = amount / 1000.
Proof.
  intros Ha. unfold routing_fee, number_times. rewrite literal_0_001. cbn [fst snd].
  change (2 ^ Z.max 0 (-62)) with 1. change (2 ^ Z.max 0 (- -62)) with 4611686018427387904.
  destruct (Z.eq_dec amount 0) as [->|Hnz]; [reflexivity|].
  pose proof (Z.div_mod amount 1000 ltac:(lia)) as Hdiv.
  pose proof (Z.mod_pos_bound amount 1000 ltac:(lia)) as Hmod.
  apply Math_floor_binary64; lia.
Qed.



(** While [amount * 1000] is below [2^53] the product is exact and the
    floor of its millionth is that of the integers. *)
Lemma proportional_fee_exact (amount : Z) :
  0 <= amount <= 9007199254740 ->
  Math_floor (number_over (number_times amount (number_of 1000)) 1000000)
  = amount * 1000 / 1000000.
Proof.
  intros Ha. unfold number_times, number_of. cbn [fst snd].
  change (2 ^ Z.max 0 0) with 1. change (2 ^ Z.max 0 (- 0)) with 1.
  rewrite Z.mul_1_r.
  destruct (Z.eq_dec amount 0) as [->|Hnz]; [reflexivity|].
  destruct (binary64_integer (amount * 1000) ltac:(lia))
    as (unit & shift & Hunit & Hshift & Hu & ->).
  unfold number_over. cbn [fst snd].
  rewrite Z.opp_involutive, Z.max_l, Z.max_r by lia.
  rewrite Z.pow_0_r, Z.mul_1_r, <- Hu.
  pose proof (Z.div_mod (amount * 1000) 1000000 ltac:(lia)) as Hdiv.
  pose proof (Z.mod_pos_bound (amount * 1000) 1000000 ltac:(lia)) as Hmod.
  set (Q := amount * 1000 / 1000000) in *.
  apply Math_floor_binary64; try nia.
Qed.

Lemma msat_to_sats_exact (msat : Z) :
  0 <= msat < 9007199254740992 ->
  Math_floor (number_over (number_of msat) 1000) = msat_to_sats msat.
Proof.
  intros Hm. unfold number_over, number_of, msat_to_sats. cbn [fst snd].
  change (2 ^ Z.max 0 0) with 1. change (2 ^ Z.max 0 (- 0)) with 1.
  rewrite !Z.mul_1_r. apply Math_floor_quotient; lia.
Qed.

(** [binary64] on the products and quotients met below, next to the
    machine's own multiplication and division. *)
Example binary64_as_the_machine :
  double_of_machine (PrimFloat.div (machine_double 1) (machine_double 1000))
  = Some (number_literal 1 1000)
  /\ double_of_machine (PrimFloat.div (machine_double 99) (machine_double 100))
     = Some (number_literal 99 100)
  /\ double_of_machine
       (PrimFloat.mul (machine_double 9007199254739999)
          (PrimFloat.div (machine_double 1) (machine_double 1000)))
     = Some (number_times 9007199254739999 (number_literal 1 1000))
  /\ double_of_machine
       (PrimFloat.mul (machine_double 1000000000000001)
          (PrimFloat.div (machine_double 99) (machine_double 100)))
     = Some (number_times 1000000000000001 (number_literal 99 100))
  /\ double_of_machine
       (PrimFloat.div
          (PrimFloat.mul (machine_double 576460752305000) (machine_double 1000))
          (machine_double 1000000))
     = Some (number_over (number_times 576460752305000 (number_of 1000)) 1000000)
  /\ double_of_machine
       (PrimFloat.mul (machine_double 72057711830165) (machine_double 1000))
     = Some (number_times 72057711830165 (number_of 1000))
  /\ double_of_machine
       (PrimFloat.div (machine_double 250000) (machine_double 1000))
     = Some (number_over (number_of 250000) 1000).
Proof. repeat split; vm_compute; reflexivity. Qed.

Example routing_fee_rounds_up :
  routing_fee 9007199254739999 = 9007199254740
  /\ 9007199254739999 / 1000 = 9007199254739.
Proof. split; vm_compute; reflexivity. Qed.

Example spendable_share_rounds_up :
  spendable_share 1000000000000001 = 990000000000001
  /\ spendable_share 142159079146801 = 140737488355333
  /\ 1000000000000001 * 99 / 100 = 990000000000000.
Proof. repeat split; vm_compute; reflexivity. Qed.

Example proportional_fee_rounds_down :
  Math_floor (number_over (number_times 576460752305000 (number_of 1000)) 1000000)
  = 576460752304
  /\ 576460752305000 * 1000 / 1000000 = 576460752305.
Proof. split; vm_compute; reflexivity. Qed.

(** ** Fee estimation *)

(** C7, as the code has it.  [estimateFee] returns base fee 1000, rate
    1000 ppm, duration 60 seconds and the fee
    [1000 + Math.floor (amountMsat * 1000 / 1000000)], product and quotient
    taken in double precision.  While [amountMsat * 1000] stays below
    [2^53], that is for amounts from 0 to 9,007,199,254,740, the fee is
    [1000 + floor (amountMsat * 1000 / 1000000)] of the integers: the
    proportional part is the largest integer [p] with
    [p * 1000000 <= amountMsat * 1000]; at 1,000,000 msat the fee is 2000. *)
Theorem estimateFee_formula :
  (forall amountMsat : Z,
      estimateFee amountMsat =
        {| baseFee := 1000;
           proportionalMillionths := 1000;
           estimatedFeeMsat :=
             1000 + Math_floor (number_over (number_times amountMsat (number_of 1000))
                                  1000000);
           estimatedDurationSeconds := 60 |})
  /\ (forall amountMsat : Z,
        0 <= amountMsat <= 9007199254740 ->
        estimateFee amountMsat =
          {| baseFee := 1000;
             proportionalMillionths := 1000;
             estimatedFeeMsat := 1000 + amountMsat * 1000 / 1000000;
             estimatedDurationSeconds := 60 |}
        /\ let proportional :=
             estimatedFeeMsat (estimateFee amountMsat) - baseFee (estimateFee amountMsat) in
           proportional * 1000000
             <= amountMsat * proportionalMillionths (estimateFee amountMsat)
             < (proportional + 1) * 1000000)
  /\ estimatedFeeMsat (estimateFee 1000000) = 2000.
Proof.
  split; [|split].
  - intros amountMsat. reflexivity.
  - intros amountMsat Hrange. unfold estimateFee. cbn [estimatedFeeMsat baseFee
      proportionalMillionths]. rewrite (proportional_fee_exact amountMsat Hrange).
    split; [reflexivity|].
    pose proof (Z.div_mod (amountMsat * 1000) 1000000 ltac:(lia)) as Hdiv.
    pose proof (Z.mod_pos_bound (amountMsat * 1000) 1000000 ltac:(lia)) as Hmod.
    lia.
  - vm_compute. reflexivity.
Qed.

(** C7, as stated for every amount, fails where the product
    [amountMsat * 1000] is no longer exact in double precision: at
    576,460,752,305,000 msat the code returns the fee 576,460,753,304, one
    less than [1000 + floor (amountMsat * 1000 / 1000000)]. *)
Lemma estimateFee_product_rounds :
  estimatedFeeMsat (estimateFee 576460752305000) = 576460753304
  /\ 1000 + 576460752305000 * 1000 / 1000000 = 576460753305
  /\ estimatedFeeMsat (estimateFee 576460752305000)
     <> 1000 + 576460752305000 * 1000 / 1000000.
Proof. split; [|split]; vm_compute; [reflexivity|reflexivity|discriminate]. Qed.

(** ** Listing payments *)

Section SortFacts.
Context {A : Type} (key : A -> Z).

Let cmp (a b : A) : Z := key b - key a.
Let desc (a b : A) : Prop := key b <= key a.

Lemma sort_insert_perm (x : A) (l : list A) :
  Permutation (sort_insert cmp x l) (x :: l).
Proof.
  induction l as [|y l IH]; simpl.
  - reflexivity.
  - destruct (0 <? cmp x y).
    + rewrite IH. apply perm_swap.
    + reflexivity.
Qed.

Lemma array_sort_perm (l : list A) : Permutation (array_sort cmp l) l.
Proof.
  induction l as [|x l IH]; simpl.
  - reflexivity.
  - rewrite sort_insert_perm. now apply perm_skip.
Qed.

Lemma sort_insert_sorted (x : A) (l : list A) :
  StronglySorted desc l -> StronglySorted desc (sort_insert cmp x l).
Proof.
  induction 1 as [|y l Hl IH Hy]; simpl.
  - constructor; constructor.
  - destruct (0 <? cmp x y) eqn:Hc.
    + apply Z.ltb_lt in Hc. constructor; [exact IH|].
      rewrite (Forall_forall (desc y)).
      intros z Hz.
      rewrite (sort_insert_perm x l) in Hz.
      apply elem_of_cons in Hz as [->|Hz].
      * unfold desc, cmp in *. lia.
      * rewrite (Forall_forall (desc y)) in Hy. now apply Hy.
    + apply Z.ltb_ge in Hc. constructor.
      * now constructor.
      * constructor; [unfold desc, cmp in *; lia|].
        rewrite (Forall_forall (desc y)) in Hy.
        rewrite (Forall_forall (desc x)).
        intros z Hz. specialize (Hy z Hz). unfold desc, cmp in *. lia.
Qed.

Lemma array_sort_sorted (l : list A) : StronglySorted desc (array_sort cmp l).
Proof.
  induction l as [|x l IH]; simpl.
  - constructor.
  - now apply sort_insert_sorted.
Qed.
End SortFacts.


(** ** Paying invoices *)

Section MapFacts.
Context {V : Type}.

Lemma map_get_set_eq (k : string) (v : V) (m : list (string * V)) :
  map_get String.eqb k (map_set String.eqb k v m) = Some v.
Proof.
  induction m as [|[k' v'] m IH]; simpl.
  - now rewrite String.eqb_refl.
  - destruct (String.eqb k' k) eqn:E; simpl; now rewrite E.
Qed.

Lemma map_get_delete_eq (k : string) (m : list (string * V)) :
  map_get String.eqb k (map_delete String.eqb k m) = None.
Proof.
  induction m as [|[k' v'] m IH]; simpl.
  - reflexivity.
  - destruct (String.eqb k' k) eqn:E; simpl; [exact IH|now rewrite E].
Qed.

Lemma map_get_elem_of (k : string) (v : V) (m : list (string * V)) :
  map_get String.eqb k m = Some v -> (k, v) ∈ m.
Proof.
  induction m as [|[k' v'] m IH]; simpl; [discriminate|].
  destruct (String.eqb k' k) eqn:E.
  - apply String.eqb_eq in E as ->. intros [= ->]. apply list_elem_of_here.
  - intros H. apply list_elem_of_further. now apply IH.
Qed.

Lemma map_get_None_keys (k : string) (m : list (string * V)) :
  map_get String.eqb k m = None <-> k ∉ map_keys m.
Proof.
  unfold map_keys. induction m as [|[k' v'] m IH]; simpl.
  - split; [intros _; apply not_elem_of_nil|reflexivity].
  - rewrite not_elem_of_cons. destruct (String.eqb k' k) eqn:E.
    + apply String.eqb_eq in E as ->. split; [discriminate|]. now intros [? _].
    + apply String.eqb_neq in E. rewrite IH. split; [intros; split; congruence|tauto].
Qed.

Lemma map_set_keys (k : string) (v : V) (m : list (string * V)) :
  map_keys (map_set String.eqb k v m) =
    match map_get String.eqb k m with Some _ => map_keys m | None => map_keys m ++ [k] end.
Proof.
  unfold map_keys. induction m as [|[k' v'] m IH]; simpl.
  - reflexivity.
  - destruct (String.eqb k' k) eqn:E; simpl; [reflexivity|].
    rewrite IH. now destruct (map_get String.eqb k m).
Qed.

Lemma map_set_keys_distinct (k : string) (v : V) (m : list (string * V)) :
  NoDup (map_keys m) -> NoDup (map_keys (map_set String.eqb k v m)).
Proof.
  intros Hm. rewrite map_set_keys.
  destruct (map_get String.eqb k m) eqn:E; [exact Hm|].
  apply map_get_None_keys in E.
  apply NoDup_app. split; [exact Hm|]. split.
  - intros x Hx Hk. apply list_elem_of_singleton in Hk as ->. contradiction.
  - apply NoDup_singleton.
Qed.

Lemma map_set_Forall (P : string * V -> Prop) (k : string) (v : V) (m : list (string * V)) :
  Forall P m -> (forall k', P (k', v)) -> Forall P (map_set String.eqb k v m).
Proof.
  intros Hm Hv. induction Hm as [|[k' v'] m Hx Hm IH]; simpl.
  - constructor; [apply Hv|constructor].
  - destruct (String.eqb k' k); constructor; auto.
Qed.

Lemma map_delete_sublist (k : string) (m : list (string * V)) :
  sublist (map_delete String.eqb k m) m.
Proof.
  induction m as [|[k' v'] m IH]; simpl.
  - constructor.
  - destruct (String.eqb k' k); [now apply sublist_cons|now apply sublist_skip].
Qed.

Lemma map_delete_keys_distinct (k : string) (m : list (string * V)) :
  NoDup (map_keys m) -> NoDup (map_keys (map_delete String.eqb k m)).
Proof.
  unfold map_keys. intros Hm.
  eapply sublist_NoDup; [exact Hm|].
  apply (fmap_sublist fst), map_delete_sublist.
Qed.

Lemma map_delete_Forall (P : string * V -> Prop) (k : string) (m : list (string * V)) :
  Forall P m -> Forall P (map_delete String.eqb k m).
Proof.
  rewrite !Forall_forall. intros Hm x Hx.
  apply Hm. eapply elem_of_sublist; [exact Hx|apply map_delete_sublist].
Qed.
End MapFacts.

(** [tag_data] is the data of the first tag of the name, if there is one. *)
Lemma tag_data_first (name value : string) (before after : list Tag) :
  Forall (fun t => tagName t <> name) before ->
  tag_data name (before ++ mkTag name value :: after) = Some value.
Proof.
  unfold tag_data. induction 1 as [|t before Ht _ IH]; simpl.
  - now rewrite String.eqb_refl.
  - apply String.eqb_neq in Ht. rewrite Ht. exact IH.
Qed.


(** C2, as the code has it.  When the invoice text decodes and its first
    tag named [payment_hash] carries [hash], [payInvoice] returns a payment
    whose fee is [Math.floor (amount * 0.001)] of the decoded amount, taken
    in double precision: for amounts from 0 to 7.5 * 10^15 that is
    [floor (amount / 1000)] of the integers.  Its preimage is the one
    freshly drawn, its hash is [hash] whatever the preimage, its status is
    [Succeeded]; the payment is stored in the registry under that hash and
    nothing else of the service changes. *)
Theorem payInvoice_success (bolt11_decode : string -> DecodeResult)
    (now : Z) (preimage bolt11Invoice : string) (st : State)
    (decoded : PaymentRequestObject) (hash : string) (before after : list Tag) :
  bolt11_decode bolt11Invoice = Decoded decoded ->
  tags decoded = before ++ mkTag "payment_hash" hash :: after ->
  Forall (fun t => tagName t <> "payment_hash") before ->
  exists payment st',
    payInvoice bolt11_decode now preimage bolt11Invoice st = Returned payment st'
    /\ amountMsat payment = default 0 (millisatoshis decoded)
    /\ feeMsat payment = Some (routing_fee (amountMsat payment))
    /\ (0 <= amountMsat payment <= 7500000000000000 ->
          feeMsat payment = Some (amountMsat payment / 1000)
          /\ forall fee, feeMsat payment = Some fee ->
               fee * 1000 <= amountMsat payment < (fee + 1) * 1000)
    /\ paymentPreimage payment = Some preimage
    /\ paymentHash payment = hash
    /\ status payment = Succeeded
    /\ timestamp payment = now
    /\ bolt11 payment = Some bolt11Invoice
    /\ map_get String.eqb hash (payments st') = Some payment
    /\ payments st' = map_set String.eqb hash payment (payments st)
    /\ channels st' = channels st /\ store st' = store st
    /\ nodeInfo st' = nodeInfo st /\ timers st' = timers st.
Proof.
  intros Hdecode Htags Hfirst. unfold payInvoice.
  rewrite Hdecode, Htags, (tag_data_first _ hash before after Hfirst).
  eexists _, _. split; [reflexivity|]. cbn [amountMsat feeMsat paymentPreimage paymentHash
    status timestamp bolt11 payments channels store nodeInfo timers set_payments].
  set (amount := match millisatoshis decoded with Some a => a | None => 0 end).
  split; [unfold amount; now destruct (millisatoshis decoded)|].
  split; [reflexivity|]. split.
  { intros Hrange. rewrite (routing_fee_exact amount Hrange).
    split; [reflexivity|]. intros fee [= <-].
    pose proof (Z.div_mod amount 1000 ltac:(lia)) as Hdiv.
    pose proof (Z.mod_pos_bound amount 1000 ltac:(lia)) as Hmod.
    lia. }
  repeat split. apply map_get_set_eq.
Qed.

Lemma payInvoice_success_witness :
  exists payment st',
    payInvoice sample_decode 1700000000000 "aabb" sample_invoice (new_service "02aa")
      = Returned payment st'
    /\ feeMsat payment = Some 250
    /\ paymentHash payment = "0001020304050607"
    /\ map_values (payments st') = [payment].
Proof.
  destruct (payInvoice_success sample_decode 1700000000000 "aabb" sample_invoice
              (new_service "02aa")
              {| tags := [mkTag "payment_hash" "0001020304050607";
                          mkTag "description" "coffee";
                          mkTag "expire_time" "3600"];
                 millisatoshis := Some 250000 |}
              "0001020304050607" []
              [mkTag "description" "coffee"; mkTag "expire_time" "3600"]
              eq_refl eq_refl (Forall_nil_2 _))
    as (payment & st' & Hrun & Hamount & _ & Hexact & _ & Hhash & _ & _ & _ & _ & Hpay & _).
  exists payment, st'. split; [exact Hrun|].
  split.
  { rewrite Hamount in Hexact. destruct Hexact as [Hfee _]; [simpl; lia|].
    rewrite Hfee. reflexivity. }
  split; [exact Hhash|].
  rewrite Hpay. reflexivity.
Defined.

(** C2, as stated for every amount, fails where the double product rounds
    up to the next integer: an invoice over 9,007,199,254,739,999 msat is
    paid with the fee 9,007,199,254,740, one more than
    [floor (amount * 0.001)]. *)
Lemma payInvoice_fee_rounds_up :
  exists payment st',
    payInvoice large_decode 1700000000000 "aabb" large_invoice (new_service "02aa")
      = Returned payment st'
    /\ amountMsat payment = 9007199254739999
    /\ feeMsat payment = Some 9007199254740
    /\ 9007199254739999 / 1000 = 9007199254739
    /\ feeMsat payment <> Some (amountMsat payment / 1000).
Proof.
  eexists _, _. split; [vm_compute; reflexivity|].
  split; [reflexivity|]. split; [reflexivity|]. split; [reflexivity|].
  vm_compute. discriminate.
Qed.

(** C6. When decoding the invoice text throws, [payInvoice] throws an error
    that carries the decoder's reason, and the service, its payments
    registry included, is left as it was. *)
Theorem payInvoice_decode_failure (bolt11_decode : string -> DecodeResult)
    (now : Z) (preimage bolt11Invoice : string) (st : State) (reason : string) :
  bolt11_decode bolt11Invoice = DecodeThrows reason ->
  payInvoice bolt11_decode now preimage bolt11Invoice st
    = Threw ("Failed to pay invoice: " ++ reason)%string st
  /\ forall st',
      outcome_state (payInvoice bolt11_decode now preimage bolt11Invoice st) = Some st' ->
      payments st' = payments st /\ listPayments st' = listPayments st.
Proof.
  intros Hdecode. unfold payInvoice. rewrite Hdecode. split; [reflexivity|].
  simpl. now intros st' [= <-].
Qed.

Lemma payInvoice_decode_failure_witness :
  payInvoice sample_decode 1700000000000 "aabb" "not-an-invoice" (new_service "02aa")
    = Threw "Failed to pay invoice: Error: Not a proper lightning payment request"
        (new_service "02aa").
Proof.
  exact (proj1 (payInvoice_decode_failure sample_decode 1700000000000 "aabb"
                  "not-an-invoice" (new_service "02aa")
                  "Error: Not a proper lightning payment request" eq_refl)).
Defined.

(** ** Closing channels *)




(** C9. While the removal queued by a first [closeChannel] is pending, a
    second call on the same identifier returns [true] as well and lowers the
    usable counter again: after the two calls it is two below its value
    before the first, with two callbacks queued.  A turn of the event loop
    before the delay has passed changes nothing of this; once the callback
    has run, the second call throws instead.  On a service with a single
    channel the counter ends at -1, below zero and below the number of
    usable channels. *)
Theorem closeChannel_twice (now1 now2 : Z) (channelId : string) (st : State) (ref : nat) :
  map_get String.eqb channelId (channels st) = Some ref ->
  (exists st1 st2,
      closeChannel now1 channelId st = Returned true st1
      /\ closeChannel now2 channelId st1 = Returned true st2
      /\ numUsableChannels (nodeInfo st2) = numUsableChannels (nodeInfo st) - 2
      /\ timers st2 = timers st ++ [mkTimer (now1 + 5000) ref channelId;
                                    mkTimer (now2 + 5000) ref channelId])
  /\ (forall later st1,
        timers st = [] ->
        closeChannel now1 channelId st = Returned true st1 ->
        (later < now1 + 5000 ->
           exists st2,
             closeChannel now2 channelId (run_timer later st1) = Returned true st2
             /\ numUsableChannels (nodeInfo st2) = numUsableChannels (nodeInfo st) - 2)
        /\ (now1 + 5000 <= later ->
             closeChannel now2 channelId (run_timer later st1)
             = Threw "Channel not found" (run_timer later st1)))
  /\ (forall node draw remotePubkey capacityMsat pushMsat,
        let st0 := snd (createChannel draw remotePubkey capacityMsat pushMsat
                          (new_service node)) in
        exists st1 st2,
          closeChannel now1 (draw_channelId draw) st0 = Returned true st1
          /\ closeChannel now2 (draw_channelId draw) st1 = Returned true st2
          /\ numUsableChannels (nodeInfo st2) = -1
          /\ numUsableChannels (nodeInfo st2) < 0
          /\ numUsableChannels (nodeInfo st2)
               < Z.of_nat (length (filter (fun c => isUsable c = true)
                                     (getChannelStatus st2)))).
Proof.
  intros Hget. split; [|split].
  - unfold closeChannel at 1. rewrite Hget.
    eexists _, _. split; [reflexivity|].
    unfold closeChannel; simpl. rewrite Hget.
    split; [reflexivity|]. simpl. split; [lia|].
    now rewrite <- app_assoc.
  - intros later st1 Hempty. unfold closeChannel at 1. rewrite Hget, Hempty.
    intros [= <-]. unfold run_timer; simpl. unfold close_delay. split.
    + intros Hearly. apply Z.leb_gt in Hearly. rewrite Hearly.
      unfold closeChannel; simpl. rewrite Hget.
      eexists. split; [reflexivity|]. simpl. lia.
    + intros Hdue. apply Z.leb_le in Hdue. rewrite Hdue.
      unfold closeChannel, close_callback; simpl.
      now rewrite map_get_delete_eq.
  - intros node draw remotePubkey capacityMsat pushMsat st0.
    unfold st0, closeChannel, createChannel; simpl.
    rewrite String.eqb_refl. eexists _, _. split; [reflexivity|]. simpl.
    rewrite String.eqb_refl. split; [reflexivity|]. simpl.
    repeat split; lia.
Qed.

Lemma closeChannel_twice_witness :
  exists st1 st2,
    closeChannel 1000 "c0ffee"
      (snd (createChannel sample_draw sample_peer 1000000 100000 (new_service "02aa")))
      = Returned true st1
    /\ closeChannel 2000 "c0ffee" st1 = Returned true st2
    /\ numUsableChannels (nodeInfo st2) = -1.
Proof.
  destruct (proj1 (closeChannel_twice 1000 2000 "c0ffee"
              (snd (createChannel sample_draw sample_peer 1000000 100000
                      (new_service "02aa"))) 0%nat eq_refl))
    as (st1 & st2 & H1 & H2 & Hn & _).
  exists st1, st2. split; [exact H1|]. split; [exact H2|].
  rewrite Hn. reflexivity.
Defined.

(** ** Restoring is not all-or-nothing *)

(** C10. There is a backup whose text parses, whose [nodeInfo] member is a
    node info and whose [channels] member is not something [new Map]
    accepts, on which [restoreState] throws from every service state after
    the node info has been overwritten: the node info is the one of the
    backup, the registries are the old ones; on a new service that is a
    changed state. *)
Theorem restoreState_not_atomic :
  exists (state : value) (restored : NodeInfo),
    get_member state "nodeInfo" = Some (json_of_NodeInfo restored)
    /\ (exists channels_member,
          get_member state "channels" = Some channels_member
          /\ new_Map channels_member = None)
    /\ (forall st, exists error st',
          restoreState (Parsed state) st = Threw error st'
          /\ nodeInfo st' = restored
          /\ channels st' = channels st /\ store st' = store st
          /\ payments st' = payments st /\ timers st' = timers st)
    /\ (forall node error st',
          restoreState (Parsed state) (new_service node) = Threw error st' ->
          nodeInfo st' <> nodeInfo (new_service node) /\ st' <> new_service node).
Proof.
  exists torn_state, foreign_info.
  split; [reflexivity|].
  split; [exists (VNum 5); split; reflexivity|].
  split.
  - intros st. eexists _, _. split; [reflexivity|]. simpl. repeat split.
  - intros node error st' [= _ <-]. simpl.
    split; [discriminate|]. intros E. apply (f_equal nodeInfo) in E. discriminate.
Qed.

(** ** Backup followed by restore *)

Lemma as_NodeInfo_json (ni : NodeInfo) : as_NodeInfo (json_of_NodeInfo ni) = Some ni.
Proof. destruct ni. reflexivity. Qed.

Lemma as_Channel_json (c : Channel) : as_Channel (json_of_Channel c) = Some c.
Proof.
  destruct c as [id scid peer txid cap loc rem st us].
  destruct scid, st; reflexivity.
Qed.

Lemma as_Payment_json (p : Payment) : as_Payment (json_of_Payment p) = Some p.
Proof.
  destruct p as [hash pre amt sta ts descr inv fee].
  destruct pre, descr, inv, fee, sta; reflexivity.
Qed.

Section EntryFacts.
Context {T : Type} (enc : T -> value) (dec : value -> option T).
Hypothesis dec_enc : forall x, dec (enc x) = Some x.

Lemma raw_set_fresh (k : string) (v : value) (l : list (string * T)) :
  k ∉ map fst l ->
  map_set same_value_zero (VStr k) v (map (entry_pair enc) l)
  = map (entry_pair enc) l ++ [(VStr k, v)].
Proof.
  induction l as [|[k' x] l IH]; [reflexivity|].
  cbn [map fst]. rewrite not_elem_of_cons. intros [Hne Hl].
  apply not_eq_sym, String.eqb_neq in Hne.
  change (entry_pair enc (k', x)) with (VStr k', enc x).
  cbn [map_set same_value_zero]. rewrite Hne.
  rewrite IH by exact Hl. reflexivity.
Qed.

Lemma new_Map_entries_from (l0 l : list (string * T)) :
  NoDup (map fst (l0 ++ l)) ->
  fold_left
    (fun acc it =>
       m ← acc; e ← entry_of it; Some (map_set same_value_zero (fst e) (snd e) m))
    (map (entry_item enc) l) (Some (map (entry_pair enc) l0))
  = Some (map (entry_pair enc) (l0 ++ l)).
Proof.
  revert l0. induction l as [|[k x] l IH]; intros l0 Hnd.
  - now rewrite app_nil_r.
  - cbn [map fold_left entry_item entry_of item nth fst snd mbind option_bind].
    rewrite raw_set_fresh.
    + replace (map (entry_pair enc) l0 ++ [(VStr k, enc x)])
        with (map (entry_pair enc) (l0 ++ [(k, x)])) by now rewrite map_app.
      rewrite IH; rewrite <- app_assoc; [reflexivity|exact Hnd].
    + rewrite map_app in Hnd. apply NoDup_app in Hnd as (_ & Hdisj & _).
      intros Hin. apply (Hdisj _ Hin). simpl. apply list_elem_of_here.
Qed.

Lemma new_Map_entries (l : list (string * T)) :
  NoDup (map fst l) ->
  new_Map (VArr (map (entry_item enc) l)) = Some (map (entry_pair enc) l).
Proof. intros Hnd. exact (new_Map_entries_from [] l Hnd). Qed.

Lemma as_registry_entries (l : list (string * T)) :
  as_registry dec (map (entry_pair enc) l) = Some l.
Proof.
  unfold as_registry. induction l as [|[k x] l IH]; simpl; [reflexivity|].
  rewrite dec_enc. simpl. rewrite IH. reflexivity.
Qed.
End EntryFacts.

Lemma channel_entries_registry (st : State) :
  channel_entries st = map (entry_item json_of_Channel) (channel_registry st).
Proof.
  unfold channel_entries, channel_registry.
  induction (channels st) as [|[k ref] l IH]; [reflexivity|].
  simpl. destruct (store st !! ref); simpl; [f_equal|]; exact IH.
Qed.

Lemma getChannelStatus_registry (st : State) :
  getChannelStatus st = map snd (channel_registry st).
Proof.
  unfold getChannelStatus, channel_registry.
  induction (channels st) as [|[k ref] l IH]; [reflexivity|].
  simpl. destruct (store st !! ref); simpl; [f_equal|]; exact IH.
Qed.

Lemma channel_registry_keys (st : State) :
  Forall (fun entry => (snd entry < length (store st))%nat) (channels st) ->
  map fst (channel_registry st) = map_keys (channels st).
Proof.
  unfold channel_registry, map_keys.
  induction 1 as [|[k ref] l Href _ IH]; [reflexivity|].
  apply lookup_lt_is_Some_2 in Href as [c Hc]. simpl in Hc.
  simpl. rewrite Hc. simpl. f_equal. exact IH.
Qed.

Lemma register_from_registry (s : list Channel) (entries : list (string * Channel)) :
  omap (fun entry => pair (fst entry) <$> (s ++ map snd entries) !! snd entry)
       (register_from (length s) entries)
  = entries.
Proof.
  revert s. induction entries as [|[k c] l IH]; intros s; [reflexivity|].
  simpl. rewrite list_lookup_middle by reflexivity. simpl. f_equal.
  specialize (IH (s ++ [c])).
  rewrite length_app, <- app_assoc in IH. simpl in IH.
  replace (length s + 1)%nat with (S (length s)) in IH by lia.
  exact IH.
Qed.

Lemma register_from_keys (ref : nat) (entries : list (string * Channel)) :
  map_keys (register_from ref entries) = map fst entries.
Proof.
  unfold map_keys. revert ref.
  induction entries as [|[k c] l IH]; intros ref; [reflexivity|].
  simpl. f_equal. apply IH.
Qed.

Lemma register_from_bound (ref : nat) (entries : list (string * Channel)) (n : nat) :
  (ref + length entries <= n)%nat ->
  Forall (fun entry => (snd entry < n)%nat) (register_from ref entries).
Proof.
  revert ref. induction entries as [|[k c] l IH]; intros ref Hn; simpl in *.
  - constructor.
  - constructor; [simpl; lia|]. apply IH. lia.
Qed.

Lemma channel_registry_install (entries : list (string * Channel)) (st : State) :
  channel_registry (install_channels entries st) = entries.
Proof. unfold channel_registry, install_channels; simpl. apply register_from_registry. Qed.

Lemma backup_member_nodeInfo (now : Z) (st : State) :
  get_member (backup_state now st) "nodeInfo" = Some (json_of_NodeInfo (nodeInfo st)).
Proof. reflexivity. Qed.

Lemma backup_member_channels (now : Z) (st : State) :
  read_member (backup_state now st) "channels" = VArr (channel_entries st).
Proof. reflexivity. Qed.

Lemma backup_member_payments (now : Z) (st : State) :
  read_member (backup_state now st) "payments" = VArr (payment_entries st).
Proof. reflexivity. Qed.

Lemma backup_member_timestamp (now : Z) (st : State) :
  get_member (backup_state now st) "timestamp" = Some (VNum now).
Proof. reflexivity. Qed.

Lemma restoreState_backup (now : Z) (st0 st : State) :
  registry_ok st0 ->
  restoreState (backupState now st0) st
  = Returned true (restored (nodeInfo st0) (channel_registry st0) (payments st0) st).
Proof.
  intros [Hc Hp Hr]. unfold restoreState, backupState.
  rewrite backup_member_nodeInfo, backup_member_channels, backup_member_payments.
  rewrite as_NodeInfo_json.
  rewrite channel_entries_registry.
  rewrite (new_Map_entries json_of_Channel)
    by (rewrite channel_registry_keys; assumption).
  rewrite (as_registry_entries json_of_Channel as_Channel as_Channel_json).
  unfold payment_entries.
  rewrite (new_Map_entries json_of_Payment) by exact Hp.
  rewrite (as_registry_entries json_of_Payment as_Payment as_Payment_json).
  reflexivity.
Qed.

Lemma restoreState_replaces (backup : blob) (st : State) (r : bool) (st' : State) :
  restoreState backup st = Returned r st' ->
  exists ni cs ps,
    r = true /\ forall st2, restoreState backup st2 = Returned true (restored ni cs ps st2).
Proof.
  unfold restoreState. destruct backup as [error|state]; [discriminate|].
  destruct (get_member state "nodeInfo") as [info|]; [|discriminate].
  destruct (as_NodeInfo info) as [ni|]; [|discriminate].
  destruct (new_Map (read_member state "channels")) as [cs|];
    [|discriminate].
  destruct (as_registry as_Channel cs) as [cs'|]; [|discriminate].
  destruct (new_Map (read_member state "payments")) as [ps|];
    [|discriminate].
  destruct (as_registry as_Payment ps) as [ps'|]; [|discriminate].
  intros [= <- _]. exists ni, cs', ps'. split; reflexivity.
Qed.

(** ** The registries stay maps along every run *)

Lemma string_keys_set_elem (k v : value) (m : list (value * value)) (x : string) :
  x ∈ string_keys (map_set same_value_zero k v m) ->
  x ∈ string_keys m \/ k = VStr x.
Proof.
  unfold string_keys. induction m as [|[k' v'] m IH]; simpl.
  - destruct k; simpl; try (intros H; now apply not_elem_of_nil in H).
    intros H. apply list_elem_of_singleton in H as ->. now right.
  - destruct (same_value_zero k' k); simpl; [now left|].
    destruct (as_string k') as [s'|]; simpl; [|exact IH].
    rewrite !elem_of_cons. intros [->|H]; [now left; left|].
    destruct (IH H) as [?|?]; [left; now right|now right].
Qed.

Lemma string_keys_set_distinct (k v : value) (m : list (value * value)) :
  NoDup (string_keys m) -> NoDup (string_keys (map_set same_value_zero k v m)).
Proof.
  induction m as [|[k' v'] m IH]; intros Hm.
  - unfold string_keys; simpl. destruct (as_string k); simpl;
      [apply NoDup_singleton|apply NoDup_nil_2].
  - simpl. destruct (same_value_zero k' k) eqn:E; [exact Hm|].
    unfold string_keys in *; simpl in *.
    destruct k' as [| |b'|n'|s'|l'|o']; simpl in *; try (now apply IH).
    apply NoDup_cons in Hm as [Hnew Hm]. apply NoDup_cons. split; [|now apply IH].
    intros Hin. apply string_keys_set_elem in Hin as [Hin| ->]; [contradiction|].
    simpl in E. now rewrite String.eqb_refl in E.
Qed.

Lemma new_Map_string_keys (iterable : value) (m : list (value * value)) :
  new_Map iterable = Some m -> NoDup (string_keys m).
Proof.
  assert (Hfold : forall items acc,
             (forall m0, acc = Some m0 -> NoDup (string_keys m0)) ->
             fold_left
               (fun acc it =>
                  m ← acc; e ← entry_of it;
                  Some (map_set same_value_zero (fst e) (snd e) m))
               items acc = Some m ->
             NoDup (string_keys m)).
  { induction items as [|it items IH]; intros acc Hacc; simpl.
    - apply Hacc.
    - apply IH. intros m0. destruct acc as [m1|]; simpl; [|discriminate].
      destruct (entry_of it) as [e|]; simpl; [|discriminate].
      intros [= <-]. apply string_keys_set_distinct. now apply Hacc. }
  destruct iterable; simpl; try discriminate.
  - intros [= <-]. apply NoDup_nil_2.
  - intros [= <-]. apply NoDup_nil_2.
  - destruct (String.eqb s ""); [|discriminate]. intros [= <-]. apply NoDup_nil_2.
  - apply Hfold. intros m0 [= <-]. apply NoDup_nil_2.
Qed.

Lemma as_registry_keys {T} (dec : value -> option T) (m : list (value * value))
    (l : list (string * T)) :
  as_registry dec m = Some l -> map fst l = string_keys m.
Proof.
  unfold as_registry, string_keys. revert l.
  induction m as [|[k v] m IH]; intros l; simpl.
  - now intros [= <-].
  - destruct (as_string k) as [s|]; simpl; [|discriminate].
    destruct (dec v) as [x|]; simpl; [|discriminate].
    destruct (mapM _ m) as [l'|]; simpl; [|discriminate].
    intros [= <-]. simpl. f_equal. now apply IH.
Qed.

Lemma registry_ok_new (node : string) : registry_ok (new_service node).
Proof. split; simpl; constructor. Qed.

Lemma registry_ok_createChannel (draw : ChannelDraw) (peer : string)
    (capacity push : Z) (st : State) :
  registry_ok st -> registry_ok (snd (createChannel draw peer capacity push st)).
Proof.
  intros [Hc Hp Hr]. unfold createChannel; split; simpl.
  - now apply map_set_keys_distinct.
  - exact Hp.
  - rewrite length_app. simpl. apply map_set_Forall.
    + eapply Forall_impl; [exact Hr|]. simpl. intros; lia.
    + intros k'. simpl. lia.
Qed.

Lemma registry_ok_closeChannel (now : Z) (channelId : string) (st st' : State) :
  registry_ok st ->
  outcome_state (closeChannel now channelId st) = Some st' ->
  registry_ok st'.
Proof.
  intros Hok. pose proof Hok as [Hc Hp Hr]. unfold closeChannel.
  destruct (map_get String.eqb channelId (channels st)); simpl; intros [= <-];
    [|exact Hok].
  split; simpl; [exact Hc|exact Hp|now rewrite length_alter].
Qed.

Lemma registry_ok_run_timer (now : Z) (st : State) :
  registry_ok st -> registry_ok (run_timer now st).
Proof.
  intros Hok. pose proof Hok as [Hc Hp Hr]. unfold run_timer.
  destruct (timers st) as [|t rest]; [exact Hok|].
  destruct (due t <=? now); [|exact Hok].
  unfold close_callback. split; simpl.
  - now apply map_delete_keys_distinct.
  - exact Hp.
  - rewrite length_alter. now apply map_delete_Forall.
Qed.

Lemma registry_ok_payInvoice (bolt11_decode : string -> DecodeResult)
    (now : Z) (preimage bolt11Invoice : string) (st st' : State) :
  registry_ok st ->
  outcome_state (payInvoice bolt11_decode now preimage bolt11Invoice st) = Some st' ->
  registry_ok st'.
Proof.
  intros Hok. pose proof Hok as [Hc Hp Hr]. unfold payInvoice.
  destruct (bolt11_decode bolt11Invoice) as [decoded|error]; simpl.
  - destruct (tag_data "payment_hash" (tags decoded)); simpl; [|discriminate].
    intros [= <-]. split; simpl; [exact Hc| |exact Hr].
    now apply map_set_keys_distinct.
  - now intros [= <-].
Qed.

Lemma registry_ok_install (cs : list (string * Channel)) (st : State) :
  registry_ok st -> NoDup (map fst cs) -> registry_ok (install_channels cs st).
Proof.
  intros [Hc Hp Hr] Hcs. unfold install_channels. split; simpl.
  - now rewrite register_from_keys.
  - exact Hp.
  - apply register_from_bound. rewrite length_app, length_map. lia.
Qed.

Lemma registry_ok_restoreState (backup : blob) (st st' : State) :
  registry_ok st ->
  outcome_state (restoreState backup st) = Some st' ->
  registry_ok st'.
Proof.
  intros Hok. unfold restoreState. destruct backup as [error|state]; simpl.
  { now intros [= <-]. }
  destruct (get_member state "nodeInfo") as [info|]; simpl; [|now intros [= <-]].
  destruct (as_NodeInfo info) as [ni|]; simpl; [|discriminate].
  assert (Hok1 : registry_ok (set_nodeInfo ni st)) by (destruct Hok; now split).
  destruct (new_Map (read_member state "channels")) as [cs|] eqn:Hcs; simpl;
    [|now intros [= <-]].
  destruct (as_registry as_Channel cs) as [cs'|] eqn:Hcs'; simpl; [|discriminate].
  assert (Hok2 : registry_ok (install_channels cs' (set_nodeInfo ni st))).
  { apply registry_ok_install; [exact Hok1|].
    rewrite (as_registry_keys _ _ _ Hcs'). now apply (new_Map_string_keys _ _ Hcs). }
  destruct (new_Map (read_member state "payments")) as [ps|] eqn:Hps; simpl;
    [|now intros [= <-]].
  destruct (as_registry as_Payment ps) as [ps'|] eqn:Hps'; simpl; [|discriminate].
  intros [= <-]. destruct Hok2 as [Hc Hp Hr]. split; simpl; [exact Hc| |exact Hr].
  unfold map_keys. rewrite (as_registry_keys _ _ _ Hps').
  now apply (new_Map_string_keys _ _ Hps).
Qed.

(** ** The invariants hold along every run that restores its own backups *)

Lemma getChannelStatus_store (P : Channel -> Prop) (st : State) :
  Forall P (store st) -> Forall P (getChannelStatus st).
Proof.
  rewrite !Forall_forall. intros Hs c Hc.
  unfold getChannelStatus in Hc. apply list_elem_of_omap in Hc as ([k ref] & _ & Hlook).
  apply Hs. eapply list_elem_of_lookup_2. exact Hlook.
Qed.

Lemma timers_store_grows (st : State) (more : list Channel) :
  Forall (fun t => exists c, store st !! target t = Some c /\ isUsable c = false) (timers st) ->
  Forall (fun t => exists c, (store st ++ more) !! target t = Some c /\ isUsable c = false)
         (timers st).
Proof.
  intros Ht. eapply Forall_impl; [exact Ht|].
  intros t (c & Hc & Hu). exists c. split; [|exact Hu].
  rewrite lookup_app_l; [exact Hc|]. eapply lookup_lt_Some. exact Hc.
Qed.

Lemma ledger_inv_new (node : string) : ledger_inv (new_service node).
Proof. split; [apply registry_ok_new|..]; simpl; constructor. Qed.

Lemma ledger_inv_createChannel (draw : ChannelDraw) (peer : string)
    (capacity push : Z) (st : State) :
  ledger_inv st -> ledger_inv (snd (createChannel draw peer capacity push st)).
Proof.
  intros [Hok Hb Hu Ht]. split; [now apply registry_ok_createChannel|..];
    unfold createChannel; simpl.
  - apply Forall_app. split; [exact Hb|]. constructor; [|constructor].
    unfold balanced; simpl. lia.
  - apply Forall_app. split; [exact Hu|]. constructor; [|constructor].
    unfold usable_is_open; simpl. reflexivity.
  - now apply timers_store_grows.
Qed.

Lemma ledger_inv_closeChannel (now : Z) (channelId : string) (st st' : State) :
  ledger_inv st ->
  outcome_state (closeChannel now channelId st) = Some st' ->
  ledger_inv st'.
Proof.
  intros Hinv Hrun. pose proof Hinv as [Hok Hb Hu Ht].
  split; [eapply registry_ok_closeChannel; eassumption|..];
    revert Hrun; unfold closeChannel;
    (destruct (map_get String.eqb channelId (channels st)) as [ref|] eqn:Hget; simpl;
     intros [= <-]; [simpl|assumption]).
  - apply Forall_alter; [exact Hb|]. intros c _ Hbal. exact Hbal.
  - apply Forall_alter; [exact Hu|]. intros c _ _. unfold usable_is_open; simpl. discriminate.
  - assert (Hlook : alter (fun c => set_isUsable false (set_state Closing c)) ref (store st)
                      !! ref
                    = (fun c => set_isUsable false (set_state Closing c)) <$> store st !! ref)
      by apply list_lookup_alter_eq.
    apply Forall_app. split.
    + eapply Forall_impl; [exact Ht|]. intros t (c & Hc' & Hu').
      destruct (decide (ref = target t)) as [E|Hne].
      * rewrite <- E, Hlook. rewrite E, Hc'. simpl. eauto.
      * rewrite list_lookup_alter_ne by exact Hne. eauto.
    + constructor; [|constructor]. simpl.
      apply map_get_elem_of in Hget.
      destruct Hok as [_ _ Hr]. rewrite Forall_forall in Hr. apply Hr in Hget.
      simpl in Hget. apply lookup_lt_is_Some_2 in Hget as [c Hc'].
      rewrite Hlook, Hc'. simpl. eauto.
Qed.

Lemma ledger_inv_run_timer (now : Z) (st : State) :
  ledger_inv st -> ledger_inv (run_timer now st).
Proof.
  intros Hinv. pose proof Hinv as [Hok Hb Hu Ht].
  pose proof (registry_ok_run_timer now st Hok) as Hok'. revert Hok'.
  unfold run_timer.
  destruct (timers st) as [|t rest] eqn:Htimers; [intros _; exact Hinv|].
  destruct (due t <=? now); [|intros _; exact Hinv].
  intros Hok'. apply Forall_cons in Ht as [(c & Hc' & Hu') Hrest].
  split; [exact Hok'|..]; unfold close_callback; simpl.
  - apply Forall_alter; [exact Hb|]. intros x _ Hbal. exact Hbal.
  - apply Forall_alter; [exact Hu|]. intros x Hx _.
    rewrite Hc' in Hx. injection Hx as <-. unfold usable_is_open; simpl. congruence.
  - eapply Forall_impl; [exact Hrest|]. intros t' (c' & Hc'' & Hu'').
    destruct (decide (target t = target t')) as [E|Hne].
    + rewrite E, list_lookup_alter_eq, Hc''. simpl. eauto.
    + rewrite list_lookup_alter_ne by exact Hne. eauto.
Qed.

Lemma ledger_inv_payInvoice (bolt11_decode : string -> DecodeResult)
    (now : Z) (preimage bolt11Invoice : string) (st st' : State) :
  ledger_inv st ->
  outcome_state (payInvoice bolt11_decode now preimage bolt11Invoice st) = Some st' ->
  ledger_inv st'.
Proof.
  intros Hinv Hrun. pose proof Hinv as [Hok Hb Hu Ht].
  split; [eapply registry_ok_payInvoice; eassumption|..];
    revert Hrun; unfold payInvoice;
    (destruct (bolt11_decode bolt11Invoice) as [decoded|error]; simpl;
     [destruct (tag_data "payment_hash" (tags decoded)); simpl; [|discriminate]|]);
    intros [= <-]; assumption.
Qed.

Lemma ledger_inv_restored (st0 st : State) :
  ledger_inv st0 -> ledger_inv st ->
  ledger_inv (restored (nodeInfo st0) (channel_registry st0) (payments st0) st).
Proof.
  intros [[Hc0 Hp0 Hr0] Hb0 Hu0 _] [Hok Hb Hu Ht].
  unfold restored. split; [|simpl..].
  - assert (Hin : registry_ok (install_channels (channel_registry st0)
                                 (set_nodeInfo (nodeInfo st0) st))).
    { apply registry_ok_install; [destruct Hok; now split|].
      rewrite channel_registry_keys; assumption. }
    destruct Hin as [Hc Hp Hr]. split; simpl; assumption.
  - apply Forall_app. split; [exact Hb|].
    rewrite <- getChannelStatus_registry. now apply getChannelStatus_store.
  - apply Forall_app. split; [exact Hu|].
    rewrite <- getChannelStatus_registry. now apply getChannelStatus_store.
  - now apply timers_store_grows.
Qed.

Section RunFacts.
Variable bolt11_decode : string -> DecodeResult.

Lemma registry_ok_step (o : op) (s s' : Session) :
  registry_ok (ledger s) -> step bolt11_decode o s = Some s' -> registry_ok (ledger s').
Proof.
  intros Hok. destruct o as [draw peer capacity push|now channelId|now
                            |now preimage bolt11Invoice|now|n|backup]; simpl.
  - intros [= <-]. now apply registry_ok_createChannel.
  - destruct (outcome_state _) as [st'|] eqn:E; simpl; [|discriminate].
    intros [= <-]. eapply registry_ok_closeChannel; eassumption.
  - intros [= <-]. now apply registry_ok_run_timer.
  - destruct (outcome_state _) as [st'|] eqn:E; simpl; [|discriminate].
    intros [= <-]. eapply registry_ok_payInvoice; eassumption.
  - now intros [= <-].
  - destruct (backups s !! n) as [backup|]; [|now intros [= <-]].
    destruct (outcome_state _) as [st'|] eqn:E; simpl; [|discriminate].
    intros [= <-]. eapply registry_ok_restoreState; eassumption.
  - destruct (outcome_state _) as [st'|] eqn:E; simpl; [|discriminate].
    intros [= <-]. eapply registry_ok_restoreState; eassumption.
Qed.

Lemma registry_ok_run (ops : list op) (s s' : Session) :
  registry_ok (ledger s) -> run bolt11_decode ops s = Some s' -> registry_ok (ledger s').
Proof.
  revert s. induction ops as [|o ops IH]; intros s Hs; simpl.
  - now intros [= <-].
  - destruct (step bolt11_decode o s) as [s1|] eqn:E; simpl; [|discriminate].
    apply IH. eapply registry_ok_step; eassumption.
Qed.

Lemma session_inv_fresh (node : string) : session_inv (fresh_session node).
Proof. split; [apply ledger_inv_new|constructor]. Qed.

Lemma session_inv_step (o : op) (s s' : Session) :
  own_backups_only [o] = true ->
  session_inv s -> step bolt11_decode o s = Some s' -> session_inv s'.
Proof.
  intros Hown [Hl Hb].
  destruct o as [draw peer capacity push|now channelId|now
                |now preimage bolt11Invoice|now|n|backup]; simpl.
  - intros [= <-]. split; [now apply ledger_inv_createChannel|exact Hb].
  - destruct (outcome_state _) as [st'|] eqn:E; simpl; [|discriminate].
    intros [= <-]. split; [|exact Hb]. eapply ledger_inv_closeChannel; eassumption.
  - intros [= <-]. split; [now apply ledger_inv_run_timer|exact Hb].
  - destruct (outcome_state _) as [st'|] eqn:E; simpl; [|discriminate].
    intros [= <-]. split; [|exact Hb]. eapply ledger_inv_payInvoice; eassumption.
  - intros [= <-]. split; [exact Hl|]. simpl.
    apply Forall_app. split; [exact Hb|]. constructor; [|constructor].
    now exists now, (ledger s).
  - destruct (backups s !! n) as [backup|] eqn:Hn; [|now intros [= <-]].
    assert (Hg : genuine_backup backup).
    { rewrite Forall_forall in Hb. apply Hb. eapply list_elem_of_lookup_2. exact Hn. }
    destruct Hg as (now & st0 & -> & Hinv0).
    rewrite restoreState_backup by apply Hinv0. simpl.
    intros [= <-]. split; [|exact Hb]. now apply ledger_inv_restored.
  - discriminate Hown.
Qed.

Lemma session_inv_run (ops : list op) (s s' : Session) :
  own_backups_only ops = true ->
  session_inv s -> run bolt11_decode ops s = Some s' -> session_inv s'.
Proof.
  revert s. induction ops as [|o ops IH]; intros s Hown Hs; simpl.
  - now intros [= <-].
  - destruct (step bolt11_decode o s) as [s1|] eqn:E; simpl; [|discriminate].
    simpl in Hown. apply andb_prop in Hown as [Ho Hops].
    apply IH; [exact Hops|]. eapply session_inv_step; [|eassumption..].
    simpl. now rewrite Ho.
Qed.
End RunFacts.

(** ** Balances *)

Lemma getBalance_fold (cs : list Channel) (total spendable : Z) :
  fold_left balance_step cs (total, spendable)
  = (total + open_local_total cs, spendable + open_usable_spendable_total cs).
Proof.
  unfold open_local_total, open_usable_spendable_total, sum_Z.
  revert total spendable. induction cs as [|c cs IH]; intros total spendable.
  - simpl. f_equal; lia.
  - cbn [fold_left balance_step List.filter].
    change (ChannelState_eqb (state c) Open) with (is_open c).
    destruct (is_open c); cbn [andb].
    + destruct (isUsable c); rewrite IH; cbn [map fold_right]; f_equal; lia.
    + now rewrite IH.
Qed.

Lemma getBalance_exact (st : State) :
  getBalance st
  = (open_local_total (getChannelStatus st),
     open_usable_spendable_total (getChannelStatus st)).
Proof. unfold getBalance. now rewrite getBalance_fold. Qed.

Lemma usable_total_when_open (cs : list Channel) :
  Forall usable_is_open cs ->
  open_usable_spendable_total cs = usable_spendable_total cs.
Proof.
  unfold open_usable_spendable_total, usable_spendable_total.
  induction 1 as [|c cs Hc _ IH]; [reflexivity|].
  cbn [List.filter]. unfold usable_is_open, is_open in *.
  destruct (isUsable c).
  - rewrite Hc by reflexivity. simpl. now rewrite IH.
  - rewrite andb_false_r. exact IH.
Qed.


Section BalanceAlongRuns.
Variable bolt11_decode : string -> DecodeResult.

(** On a service that has only ever restored its own backups the usable
    channels are the open usable ones. *)
Lemma getBalance_usable_along_runs (ops : list op) (node : string) (s : Session) :
  own_backups_only ops = true ->
  run bolt11_decode ops (fresh_session node) = Some s ->
  getBalance (ledger s)
  = (open_local_total (getChannelStatus (ledger s)),
     usable_spendable_total (getChannelStatus (ledger s))).
Proof.
  intros Hown Hrun.
  apply (session_inv_run bolt11_decode ops _ _ Hown (session_inv_fresh node)) in Hrun.
  destruct Hrun as [Hinv _]. rewrite getBalance_exact. f_equal.
  apply usable_total_when_open, getChannelStatus_store, Hinv.
Qed.
End BalanceAlongRuns.



(** ** Round trip *)

Lemma restored_reads (ni : NodeInfo) (cs : list (string * Channel))
    (ps : list (string * Payment)) (st : State) :
  nodeInfo (restored ni cs ps st) = ni
  /\ channel_registry (restored ni cs ps st) = cs
  /\ getChannelStatus (restored ni cs ps st) = map snd cs
  /\ payments (restored ni cs ps st) = ps
  /\ listPayments (restored ni cs ps st)
     = array_sort (fun a b => timestamp b - timestamp a) (map_values ps)
  /\ timers (restored ni cs ps st) = timers st.
Proof.
  assert (Hreg : channel_registry (restored ni cs ps st) = cs)
    by apply (channel_registry_install cs (set_nodeInfo ni st)).
  repeat split; try reflexivity; try exact Hreg.
  now rewrite getChannelStatus_registry, Hreg.
Qed.

Section RoundTripAlongRuns.
Variable bolt11_decode : string -> DecodeResult.

(** Whatever a service has been through, restoring its backup succeeds and
    reads the same. *)
Lemma backup_restore_along_runs (ops : list op) (node : string) (s : Session) (now : Z) :
  run bolt11_decode ops (fresh_session node) = Some s ->
  exists st',
    restoreState (backupState now (ledger s)) (ledger s) = Returned true st'
    /\ getChannelStatus st' = getChannelStatus (ledger s)
    /\ listPayments st' = listPayments (ledger s).
Proof.
  intros Hrun.
  apply (registry_ok_run bolt11_decode ops (fresh_session node) s
           (registry_ok_new node)) in Hrun.
  eexists. split; [now apply restoreState_backup|].
  destruct (restored_reads (nodeInfo (ledger s)) (channel_registry (ledger s))
              (payments (ledger s)) (ledger s)) as (_ & _ & Hs & _ & Hl & _).
  rewrite Hs, Hl, <- getChannelStatus_registry. split; reflexivity.
Qed.
End RoundTripAlongRuns.

(** C3. For a ledger whose registries are maps (distinct keys, references
    that resolve), as those of every service are whatever it has been
    through, the backup holds the node info, every channel entry, every
    payment entry and the timestamp, each readable back as written;
    restoring it succeeds and yields a ledger with the same node info and
    the same [getChannelStatus] and [listPayments] results, equal as lists
    and hence as sets.  Whenever a restore succeeds, the node info and both
    registries it leaves are those decoded from the backup, whatever the
    state before. *)
Theorem backup_restore_roundtrip (now : Z) (st : State) :
  registry_ok st ->
  (as_NodeInfo (read_member (backup_state now st) "nodeInfo") = Some (nodeInfo st)
   /\ (new_Map (read_member (backup_state now st) "channels") ≫= as_registry as_Channel)
      = Some (channel_registry st)
   /\ (new_Map (read_member (backup_state now st) "payments") ≫= as_registry as_Payment)
      = Some (payments st)
   /\ read_member (backup_state now st) "timestamp" = VNum now)
  /\ (exists st',
        restoreState (backupState now st) st = Returned true st'
        /\ nodeInfo st' = nodeInfo st
        /\ getChannelStatus st' = getChannelStatus st
        /\ listPayments st' = listPayments st
        /\ Permutation (getChannelStatus st') (getChannelStatus st)
        /\ Permutation (listPayments st') (listPayments st))
  /\ (forall backup s1 r s1',
        restoreState backup s1 = Returned r s1' ->
        forall s2, exists s2',
          restoreState backup s2 = Returned r s2'
          /\ nodeInfo s2' = nodeInfo s1'
          /\ channel_registry s2' = channel_registry s1'
          /\ getChannelStatus s2' = getChannelStatus s1'
          /\ payments s2' = payments s1').
Proof.
  intros Hok. split; [|split].
  - destruct Hok as [Hc Hp Hr].
    rewrite backup_member_channels, backup_member_payments.
    split; [apply as_NodeInfo_json|]. split; [|split; [|reflexivity]].
    + rewrite channel_entries_registry.
      rewrite (new_Map_entries json_of_Channel)
        by (rewrite channel_registry_keys; assumption).
      apply (as_registry_entries json_of_Channel as_Channel as_Channel_json).
    + unfold payment_entries. rewrite (new_Map_entries json_of_Payment) by exact Hp.
      apply (as_registry_entries json_of_Payment as_Payment as_Payment_json).
  - eexists. split; [now apply restoreState_backup|].
    destruct (restored_reads (nodeInfo st) (channel_registry st) (payments st) st)
      as (Hn & _ & Hs & _ & Hl & _).
    rewrite Hn, Hs, Hl, <- getChannelStatus_registry.
    repeat split; reflexivity.
  - intros backup s1 r s1' Hrun s2.
    destruct (restoreState_replaces backup s1 r s1' Hrun) as (ni & cs & ps & -> & Hall).
    rewrite Hall in Hrun. injection Hrun as <-.
    exists (restored ni cs ps s2). split; [apply Hall|].
    destruct (restored_reads ni cs ps s1) as (-> & -> & -> & -> & _).
    destruct (restored_reads ni cs ps s2) as (-> & -> & -> & -> & _).
    repeat split; reflexivity.
Qed.

Lemma backup_restore_roundtrip_witness :
  registry_ok sample_ledger
  /\ exists st',
       restoreState (backupState 1700000000500 sample_ledger) sample_ledger
         = Returned true st'
       /\ getChannelStatus st' = getChannelStatus sample_ledger
       /\ listPayments st' = listPayments sample_ledger
       /\ length (getChannelStatus st') = 1%nat
       /\ length (listPayments st') = 1%nat.
Proof.
  assert (Hok : registry_ok sample_ledger).
  { split; vm_compute.
    - apply NoDup_singleton.
    - apply NoDup_singleton.
    - repeat constructor. }
  split; [exact Hok|].
  destruct (proj1 (proj2 (backup_restore_roundtrip 1700000000500 sample_ledger Hok)))
    as (st' & Hrun & _ & Hchannels & Hpayments & _).
  exists st'. split; [exact Hrun|]. split; [exact Hchannels|]. split; [exact Hpayments|].
  rewrite Hchannels, Hpayments. split; reflexivity.
Defined.

(** ** The balance equation of a channel *)







Section AmountsAlongRuns.
Variable bolt11_decode : string -> DecodeResult.


End AmountsAlongRuns.

Lemma channel_registry_get (k : string) (st : State) :
  Forall (fun entry => (snd entry < length (store st))%nat) (channels st) ->
  map_get String.eqb k (channel_registry st)
  = map_get String.eqb k (channels st) ≫= (fun ref => store st !! ref).
Proof.
  unfold channel_registry.
  induction 1 as [|[k' ref] l Href _ IH]; [reflexivity|].
  apply lookup_lt_is_Some_2 in Href as [c Hc]. simpl in Hc.
  simpl. rewrite Hc. simpl.
  destruct (String.eqb k' k); [simpl; congruence|exact IH].
Qed.




(** * Further properties of the ledger *)

(** ** A close completes *)

Lemma map_get_delete_absent {V} (k k' : string) (m : list (string * V)) :
  map_get String.eqb k m = None ->
  map_get String.eqb k (map_delete String.eqb k' m) = None.
Proof.
  induction m as [|[k0 v0] m IH]; simpl; [reflexivity|].
  destruct (String.eqb k0 k) eqn:E; [discriminate|]. intros H.
  destruct (String.eqb k0 k'); simpl; [now apply IH|]. rewrite E. now apply IH.
Qed.

Lemma run_timer_absent (later : Z) (k : string) (st : State) :
  map_get String.eqb k (channels st) = None ->
  map_get String.eqb k (channels (run_timer later st)) = None.
Proof.
  intros H. unfold run_timer. destruct (timers st) as [|t rest]; [exact H|].
  destruct (due t <=? later); [|exact H].
  unfold close_callback; simpl. now apply map_get_delete_absent.
Qed.

Lemma iter_run_timer_absent (later : Z) (k : string) (n : nat) (st : State) :
  map_get String.eqb k (channels st) = None ->
  map_get String.eqb k (channels (Nat.iter n (run_timer later) st)) = None.
Proof.
  intros H. induction n as [|n IH]; simpl; [exact H|]. now apply run_timer_absent.
Qed.

Lemma iter_run_timer_drains (later : Z) (n : nat) (st : State) :
  length (timers st) = n ->
  Forall (fun t => due t <= later) (timers st) ->
  timers (Nat.iter n (run_timer later) st) = []
  /\ payments (Nat.iter n (run_timer later) st) = payments st
  /\ forall t, t ∈ timers st ->
       map_get String.eqb (closing_id t)
         (channels (Nat.iter n (run_timer later) st)) = None.
Proof.
  revert st. induction n as [|n IH]; intros st Hlen Hdue.
  - destruct (timers st) eqn:E; [|discriminate]. simpl. rewrite E.
    split; [reflexivity|]. split; [reflexivity|]. intros t Ht.
    now apply not_elem_of_nil in Ht.
  - destruct (timers st) as [|t rest] eqn:E; [discriminate|].
    apply Forall_cons in Hdue as [Ht Hrest]. injection Hlen as Hlen.
    rewrite Nat.iter_succ_r.
    assert (Hstep : run_timer later st = close_callback t (set_timers rest st)).
    { unfold run_timer. rewrite E. apply Z.leb_le in Ht. now rewrite Ht. }
    rewrite Hstep.
    destruct (IH (close_callback t (set_timers rest st)) Hlen Hrest)
      as (Hnone & Hpay & Hall).
    split; [exact Hnone|]. split; [exact Hpay|].
    intros t' Ht'. apply elem_of_cons in Ht' as [->|Ht']; [|now apply Hall].
    apply iter_run_timer_absent. unfold close_callback; simpl.
    apply map_get_delete_eq.
Qed.

Lemma channel_registry_absent (k : string) (st : State) :
  map_get String.eqb k (channels st) = None ->
  map_get String.eqb k (channel_registry st) = None.
Proof.
  unfold channel_registry. induction (channels st) as [|[k' ref] l IH]; [reflexivity|].
  simpl. destruct (String.eqb k' k) eqn:E; [discriminate|]. intros H.
  destruct (store st !! ref); simpl; [rewrite E|]; now apply IH.
Qed.

(** X1. Once [closeChannel] has succeeded and every queued delay has
    passed, the queue of callbacks is empty and the identifier is gone from
    the registry, so [getChannelStatus] no longer lists the channel; the
    payments are as they were. *)
Theorem close_completes (now later : Z) (channelId : string) (st st1 : State) :
  closeChannel now channelId st = Returned true st1 ->
  Forall (fun t => due t <= later) (timers st) ->
  now + 5000 <= later ->
  timers (drain_timers later st1) = []
  /\ map_get String.eqb channelId (channels (drain_timers later st1)) = None
  /\ map_get String.eqb channelId (channel_registry (drain_timers later st1)) = None
  /\ payments (drain_timers later st1) = payments st.
Proof.
  unfold closeChannel.
  destruct (map_get String.eqb channelId (channels st)) as [ref|]; [|discriminate].
  intros [= <-] Hdue Hlater. unfold drain_timers.
  match goal with
  | |- context [Nat.iter ?n _ ?s] =>
      destruct (iter_run_timer_drains later n s eq_refl) as (Hnone & Hpay & Hall)
  end.
  { simpl. apply Forall_app. split; [exact Hdue|].
    constructor; [simpl; unfold close_delay; lia|constructor]. }
  assert (Hgone : map_get String.eqb channelId
                    (channels (Nat.iter (length (timers st ++
                        [mkTimer (now + close_delay) ref channelId]))
                      (run_timer later)
                      (set_timers (timers st ++ [mkTimer (now + close_delay) ref channelId])
                         (set_nodeInfo (add_numUsableChannels (-1) (nodeInfo st))
                            (set_channels
                               (alter (fun c => set_isUsable false (set_state Closing c))
                                      ref (store st))
                               (channels st) st))))) = None).
  { apply (Hall (mkTimer (now + close_delay) ref channelId)). simpl.
    apply elem_of_app. right. apply list_elem_of_here. }
  split; [exact Hnone|]. split; [exact Hgone|].
  split; [now apply channel_registry_absent|exact Hpay].
Qed.

Lemma close_completes_witness :
  closeChannel 1000 "c0ffee" sample_opened = Returned true sample_closing
  /\ timers (drain_timers 6000 sample_closing) = []
  /\ map_get String.eqb "c0ffee" (channels (drain_timers 6000 sample_closing)) = None
  /\ map_get String.eqb "c0ffee" (channel_registry (drain_timers 6000 sample_closing)) = None
  /\ payments (drain_timers 6000 sample_closing) = payments sample_opened.
Proof.
  split; [reflexivity|].
  apply (close_completes 1000 6000 "c0ffee" sample_opened sample_closing).
  - reflexivity.
  - constructor.
  - lia.
Defined.

(** ** What [createChannel] does to the listing *)

Lemma map_set_fresh {V} (k : string) (v : V) (m : list (string * V)) :
  map_get String.eqb k m = None -> map_set String.eqb k v m = m ++ [(k, v)].
Proof.
  induction m as [|[k' v'] m IH]; simpl; [reflexivity|].
  destruct (String.eqb k' k); [discriminate|]. intros H. now rewrite IH.
Qed.

Lemma map_set_length_present {V} (k : string) (v v0 : V) (m : list (string * V)) :
  map_get String.eqb k m = Some v0 -> length (map_set String.eqb k v m) = length m.
Proof.
  induction m as [|[k' v'] m IH]; simpl; [discriminate|].
  destruct (String.eqb k' k); simpl; [reflexivity|]. intros H. now rewrite IH.
Qed.

Lemma omap_agree {A B} (f g : A -> option B) (l : list A) :
  Forall (fun x => f x = g x) l -> omap f l = omap g l.
Proof.
  induction 1 as [|x l Hx _ IH]; [reflexivity|].
  cbn [omap list_omap]. now rewrite Hx, IH.
Qed.

Lemma status_store_grows (s more : list Channel) (l : list (string * nat)) :
  Forall (fun entry => (snd entry < length s)%nat) l ->
  omap (fun entry => (s ++ more) !! snd entry) l = omap (fun entry => s !! snd entry) l.
Proof.
  intros H. apply omap_agree. eapply Forall_impl; [exact H|].
  intros [k r] Hr. now apply lookup_app_l.
Qed.

Lemma status_length (s : list Channel) (l : list (string * nat)) :
  Forall (fun entry => (snd entry < length s)%nat) l ->
  length (omap (fun entry => s !! snd entry) l) = length l.
Proof.
  induction 1 as [|[k r] l Hr _ IH]; [reflexivity|].
  apply lookup_lt_is_Some_2 in Hr as [c Hc]. cbn [snd] in Hc.
  cbn [omap list_omap snd]. rewrite Hc. cbn [length]. f_equal. exact IH.
Qed.

Lemma getChannelStatus_length (st : State) :
  Forall (fun entry => (snd entry < length (store st))%nat) (channels st) ->
  length (getChannelStatus st) = length (channels st).
Proof. apply status_length. Qed.

(** X2. [createChannel] raises both counters by one and leaves the payments
    alone.  Under an identifier that is not registered the new channel is
    listed last, after the channels listed before.  Under an identifier that
    is registered the new channel takes the place of the old one: the
    identifiers and the number of listed channels stay the same, although
    the counters have gone up. *)
Theorem createChannel_listing (draw : ChannelDraw) (peer : string)
    (capacity push : Z) (st : State) :
  registry_ok st ->
  let created := createChannel draw peer capacity push st in
  numChannels (nodeInfo (snd created)) = numChannels (nodeInfo st) + 1
  /\ numUsableChannels (nodeInfo (snd created)) = numUsableChannels (nodeInfo st) + 1
  /\ payments (snd created) = payments st
  /\ (map_get String.eqb (draw_channelId draw) (channels st) = None ->
        getChannelStatus (snd created) = getChannelStatus st ++ [fst created])
  /\ (forall ref,
        map_get String.eqb (draw_channelId draw) (channels st) = Some ref ->
        map_keys (channels (snd created)) = map_keys (channels st)
        /\ length (getChannelStatus (snd created)) = length (getChannelStatus st)
        /\ map_get String.eqb (draw_channelId draw) (channel_registry (snd created))
           = Some (fst created)).
Proof.
  intros Hok created.
  pose proof (registry_ok_createChannel draw peer capacity push st Hok) as Hok'.
  destruct Hok as [Hc Hp Hr].
  split; [reflexivity|]. split; [reflexivity|]. split; [reflexivity|]. split.
  - intros Hfresh. unfold created, createChannel, getChannelStatus; simpl.
    rewrite (map_set_fresh _ _ _ Hfresh), omap_app.
    rewrite status_store_grows by exact Hr. f_equal.
    simpl. now rewrite list_lookup_middle.
  - intros ref Hget. split; [|split].
    + unfold created, createChannel; simpl. rewrite map_set_keys. now rewrite Hget.
    + rewrite !getChannelStatus_length; [|exact Hr|apply Hok'].
      unfold created, createChannel; simpl.
      now apply (map_set_length_present _ _ ref).
    + rewrite channel_registry_get by apply Hok'.
      unfold created, createChannel; simpl. rewrite map_get_set_eq. simpl.
      now apply list_lookup_middle.
Qed.

Lemma createChannel_listing_witness :
  registry_ok sample_opened
  /\ length (getChannelStatus
               (snd (createChannel sample_draw "03other" 5000 0 sample_opened))) = 1%nat
  /\ numChannels (nodeInfo (snd (createChannel sample_draw "03other" 5000 0 sample_opened)))
     = 2.
Proof.
  assert (Hok : registry_ok sample_opened).
  { split; vm_compute; [apply NoDup_singleton|apply NoDup_nil_2|repeat constructor]. }
  split; [exact Hok|].
  destruct (createChannel_listing sample_draw "03other" 5000 0 sample_opened Hok)
    as (Hn & _ & _ & _ & Hsame).
  destruct (Hsame 0%nat eq_refl) as (_ & Hlen & _).
  split; [rewrite Hlen; reflexivity|rewrite Hn; reflexivity].
Defined.

(** ** What [closeChannel] does to the balance and to the other channels *)







(** ** No channel object is registered twice *)

Lemma map_set_refs (k : string) (n : nat) (m : list (string * nat)) :
  Forall (fun entry => (snd entry < n)%nat) m ->
  NoDup (map snd m) -> NoDup (map snd (map_set String.eqb k n m)).
Proof.
  induction m as [|[k' r] m IH]; intros Hlt Hnd.
  - apply NoDup_singleton.
  - apply Forall_cons in Hlt as [Hr Hlt]. cbn [map snd] in Hnd, Hr.
    apply NoDup_cons in Hnd as [Hnew Hnd].
    assert (Hn : n ∉ map snd m).
    { intros Hin. apply list_elem_of_fmap in Hin as ([k0 r0] & Heq & Hin).
      rewrite Forall_forall in Hlt. specialize (Hlt _ Hin). simpl in *. lia. }
    simpl. destruct (String.eqb k' k); cbn [map snd]; apply NoDup_cons.
    + split; assumption.
    + split; [|now apply IH].
      intros Hin. apply list_elem_of_fmap in Hin as ([k0 r0] & Heq & Hin).
      cbn [snd] in Heq. subst r0.
      assert (Hor : (k0, r) ∈ m \/ r = n).
      { clear -Hin. induction m as [|[k1 r1] m IH]; simpl in Hin.
        - apply list_elem_of_singleton in Hin as [= _ ->]. now right.
        - destruct (String.eqb k1 k).
          + apply elem_of_cons in Hin as [[= _ ->]|Hin]; [now right|].
            left. now apply list_elem_of_further.
          + apply elem_of_cons in Hin as [[= -> ->]|Hin]; [left; apply list_elem_of_here|].
            destruct (IH Hin) as [H|H]; [left; now apply list_elem_of_further|now right]. }
      destruct Hor as [Hm|Hm]; [|lia].
      apply Hnew. apply list_elem_of_fmap. now exists (k0, r).
Qed.

Lemma register_from_refs (ref : nat) (entries : list (string * Channel)) :
  map snd (register_from ref entries) = seq ref (length entries).
Proof.
  revert ref. induction entries as [|[k c] l IH]; intros ref; [reflexivity|].
  simpl. f_equal. apply IH.
Qed.

Lemma refs_distinct_restoreState (backup : blob) (st st' : State) :
  refs_distinct st ->
  outcome_state (restoreState backup st) = Some st' ->
  refs_distinct st'.
Proof.
  intros Hrefs. unfold restoreState. destruct backup as [error|state]; simpl.
  { now intros [= <-]. }
  destruct (get_member state "nodeInfo") as [info|]; simpl; [|now intros [= <-]].
  destruct (as_NodeInfo info) as [ni|]; simpl; [|discriminate].
  destruct (new_Map (read_member state "channels")) as [cs|]; simpl;
    [|now intros [= <-]].
  destruct (as_registry as_Channel cs) as [cs'|]; simpl; [|discriminate].
  assert (Hnew : refs_distinct (install_channels cs' (set_nodeInfo ni st))).
  { unfold refs_distinct, install_channels. simpl.
    rewrite register_from_refs. apply NoDup_ListNoDup, List.seq_NoDup. }
  destruct (new_Map (read_member state "payments")) as [ps|]; simpl;
    [|now intros [= <-]].
  destruct (as_registry as_Payment ps) as [ps'|]; simpl; [|discriminate].
  now intros [= <-].
Qed.

Section RegistryShape.
Variable bolt11_decode : string -> DecodeResult.

Lemma refs_distinct_step (o : op) (s s' : Session) :
  registry_ok (ledger s) -> refs_distinct (ledger s) ->
  step bolt11_decode o s = Some s' -> refs_distinct (ledger s').
Proof.
  intros Hok Hrefs. pose proof Hok as [_ _ Hr].
  destruct o as [draw peer capacity push|now channelId|now
                |now preimage bolt11Invoice|now|n|backup]; simpl.
  - intros [= <-]. unfold refs_distinct, createChannel. simpl.
    now apply map_set_refs.
  - unfold closeChannel.
    destruct (map_get String.eqb channelId (channels (ledger s))); simpl;
      now intros [= <-].
  - intros [= <-]. unfold run_timer.
    destruct (timers (ledger s)) as [|t rest]; [exact Hrefs|].
    destruct (due t <=? now); [|exact Hrefs].
    unfold refs_distinct, close_callback. simpl.
    eapply sublist_NoDup; [exact Hrefs|].
    apply fmap_sublist, map_delete_sublist.
  - unfold payInvoice. destruct (bolt11_decode bolt11Invoice) as [decoded|error]; simpl.
    + destruct (tag_data "payment_hash" (tags decoded)); simpl; [|discriminate].
      now intros [= <-].
    + now intros [= <-].
  - now intros [= <-].
  - destruct (backups s !! n) as [backup|]; [|now intros [= <-]].
    destruct (outcome_state _) as [st'|] eqn:E; simpl; [|discriminate].
    intros [= <-]. eapply refs_distinct_restoreState; eassumption.
  - destruct (outcome_state _) as [st'|] eqn:E; simpl; [|discriminate].
    intros [= <-]. eapply refs_distinct_restoreState; eassumption.
Qed.

Lemma refs_distinct_run (ops : list op) (s s' : Session) :
  registry_ok (ledger s) -> refs_distinct (ledger s) ->
  run bolt11_decode ops s = Some s' -> refs_distinct (ledger s').
Proof.
  revert s. induction ops as [|o ops IH]; intros s Hok Hrefs; simpl.
  - now intros [= <-].
  - destruct (step bolt11_decode o s) as [s1|] eqn:E; simpl; [|discriminate].
    apply IH.
    + eapply registry_ok_step; eassumption.
    + eapply refs_distinct_step; eassumption.
Qed.

(** X4. Along every sequence of operations the embedding follows from the
    construction of a service, restores included (of its own backups, of a
    text that does not parse, of any other text that parses to node
    information, channels and payments of the declared types), its channel
    listing has exactly one channel per registered identifier, no
    identifier is registered twice, no channel object stands under two
    identifiers, and a registered identifier always reads back a channel. *)
Theorem registry_shape_along_runs (node : string) (ops : list op) (s : Session) :
  run bolt11_decode ops (fresh_session node) = Some s ->
  NoDup (map_keys (channels (ledger s)))
  /\ refs_distinct (ledger s)
  /\ length (getChannelStatus (ledger s)) = length (channels (ledger s))
  /\ map_keys (channel_registry (ledger s)) = map_keys (channels (ledger s))
  /\ forall k ref, map_get String.eqb k (channels (ledger s)) = Some ref ->
       exists c, map_get String.eqb k (channel_registry (ledger s)) = Some c
                 /\ c ∈ getChannelStatus (ledger s).
Proof.
  intros Hrun.
  assert (Hok : registry_ok (ledger s)).
  { apply (registry_ok_run bolt11_decode ops (fresh_session node) s);
      [apply registry_ok_new|exact Hrun]. }
  assert (Hrefs : refs_distinct (ledger s)).
  { apply (refs_distinct_run ops (fresh_session node) s);
      [apply registry_ok_new|apply NoDup_nil_2|exact Hrun]. }
  pose proof Hok as [Hc _ Hr].
  split; [exact Hc|]. split; [exact Hrefs|].
  split; [now apply getChannelStatus_length|].
  split; [now apply channel_registry_keys|].
  intros k ref Hget.
  assert (Hlt : (ref < length (store (ledger s)))%nat).
  { rewrite Forall_forall in Hr. apply (Hr (k, ref)). now apply map_get_elem_of. }
  apply lookup_lt_is_Some_2 in Hlt as [c Hlook]. exists c. split.
  - rewrite channel_registry_get by exact Hr. rewrite Hget. exact Hlook.
  - unfold getChannelStatus. apply list_elem_of_omap. exists (k, ref).
    split; [now apply map_get_elem_of|exact Hlook].
Qed.
End RegistryShape.

Lemma registry_shape_along_runs_witness :
  run sample_decode foreign_ops (fresh_session "02aa") = Some session_foreign
  /\ map_keys (channels (ledger session_foreign)) = ["c0ffee"; "beef"; "abba"]
  /\ NoDup (map_keys (channels (ledger session_foreign)))
  /\ refs_distinct (ledger session_foreign)
  /\ length (getChannelStatus (ledger session_foreign)) = 3%nat.
Proof.
  assert (Hrun : run sample_decode foreign_ops (fresh_session "02aa")
                 = Some session_foreign) by (vm_compute; reflexivity).
  split; [exact Hrun|]. split; [reflexivity|].
  destruct (registry_shape_along_runs sample_decode "02aa" _ _ Hrun)
    as (Hkeys & Hrefs & Hlen & _).
  split; [exact Hkeys|]. split; [exact Hrefs|].
  etransitivity; [exact Hlen|reflexivity].
Defined.

(** ** What [payInvoice] does to the payment listing *)

Lemma map_get_set_ne {V} (k k' : string) (v : V) (m : list (string * V)) :
  k' <> k -> map_get String.eqb k' (map_set String.eqb k v m) = map_get String.eqb k' m.
Proof.
  intros Hne. apply String.eqb_neq in Hne.
  induction m as [|[k0 v0] m IH]; simpl.
  - rewrite String.eqb_sym. now rewrite Hne.
  - destruct (String.eqb k0 k) eqn:E; simpl.
    + apply String.eqb_eq in E as ->. rewrite String.eqb_sym. now rewrite Hne.
    + now rewrite IH.
Qed.

Lemma map_set_values_elem {V} (k : string) (v x : V) (m : list (string * V)) :
  x ∈ map_values (map_set String.eqb k v m) -> x = v \/ x ∈ map_values m.
Proof.
  unfold map_values. induction m as [|[k0 v0] m IH]; simpl.
  - intros H. apply list_elem_of_singleton in H. now left.
  - destruct (String.eqb k0 k); cbn [map snd]; intros H;
      apply elem_of_cons in H as [->|H].
    + now left.
    + right. now apply list_elem_of_further.
    + right. apply list_elem_of_here.
    + destruct (IH H) as [->|Hm]; [now left|right; now apply list_elem_of_further].
Qed.

Lemma map_set_values_length {V} (k : string) (v : V) (m : list (string * V)) :
  length (map_values (map_set String.eqb k v m))
  = match map_get String.eqb k m with
    | Some _ => length (map_values m)
    | None => S (length (map_values m))
    end.
Proof.
  unfold map_values. induction m as [|[k0 v0] m IH]; simpl; [reflexivity|].
  destruct (String.eqb k0 k); simpl; [reflexivity|].
  rewrite IH. now destruct (map_get String.eqb k m).
Qed.

Lemma listPayments_length (st : State) :
  length (listPayments st) = length (map_values (payments st)).
Proof. apply Permutation_length, (array_sort_perm timestamp). Qed.

(** X5. A payment that went through is listed by [listPayments]; a payment
    recorded earlier under the same hash is no longer listed, so that paying
    one invoice twice leaves one record, and the records under other hashes
    stay.  When the clock has passed every recorded timestamp the new payment
    is listed first. *)
Theorem payInvoice_listing (bolt11_decode : string -> DecodeResult)
    (now : Z) (preimage bolt11Invoice : string) (st st' : State) (payment : Payment) :
  payInvoice bolt11_decode now preimage bolt11Invoice st = Returned payment st' ->
  payment ∈ listPayments st'
  /\ length (listPayments st')
     = match map_get String.eqb (paymentHash payment) (payments st) with
       | Some _ => length (listPayments st)
       | None => S (length (listPayments st))
       end
  /\ (forall hash, hash <> paymentHash payment ->
        map_get String.eqb hash (payments st') = map_get String.eqb hash (payments st))
  /\ (Forall (fun earlier => timestamp earlier < now) (listPayments st) ->
        head (listPayments st') = Some payment).
Proof.
  unfold payInvoice. destruct (bolt11_decode bolt11Invoice) as [decoded|error];
    [|discriminate].
  destruct (tag_data "payment_hash" (tags decoded)) as [hash|]; [|discriminate].
  intros [= <- <-]. cbn [paymentHash].
  set (payment := mkPayment _ _ _ _ _ _ _ _).
  set (st' := set_payments _ st).
  assert (Hperm : Permutation (listPayments st') (map_values (payments st')))
    by apply (array_sort_perm timestamp).
  assert (Hperm0 : Permutation (listPayments st) (map_values (payments st)))
    by apply (array_sort_perm timestamp).
  assert (Hsorted : StronglySorted (fun a b => timestamp b <= timestamp a)
                      (listPayments st'))
    by apply (array_sort_sorted timestamp).
  assert (Hin : payment ∈ listPayments st').
  { rewrite Hperm.
    unfold st'; simpl. apply list_elem_of_fmap. exists (hash, payment).
    split; [reflexivity|]. apply map_get_elem_of, map_get_set_eq. }
  split; [exact Hin|]. split.
  { rewrite !listPayments_length. unfold st'; simpl. apply map_set_values_length. }
  split.
  { intros k Hk. unfold st'; simpl. now apply map_get_set_ne. }
  intros Hearlier.
  destruct (listPayments st') as [|first others] eqn:Hlist.
  { now apply not_elem_of_nil in Hin. }
  simpl. f_equal.
  assert (Hfirst : first = payment \/ first ∈ map_values (payments st)).
  { apply (map_set_values_elem hash).
    change (first ∈ map_values (payments st')).
    rewrite <- Hperm. apply list_elem_of_here. }
  destruct Hfirst as [Hfirst|Hold]; [exact Hfirst|].
  assert (Hlt : timestamp first < now).
  { rewrite Forall_forall in Hearlier. apply Hearlier. now rewrite Hperm0. }
  apply elem_of_cons in Hin as [Heq|Hin]; [now symmetry|].
  apply StronglySorted_inv in Hsorted as [_ Hle].
  rewrite Forall_forall in Hle. specialize (Hle _ Hin).
  change (timestamp payment) with now in Hle. lia.
Qed.

Lemma payInvoice_listing_witness :
  payInvoice sample_decode 1700000005000 "ccdd" sample_invoice sample_ledger
  = Returned sample_repayment sample_repaid
  /\ length (listPayments sample_ledger) = 1%nat
  /\ listPayments sample_repaid = [sample_repayment].
Proof.
  assert (Hpay : payInvoice sample_decode 1700000005000 "ccdd" sample_invoice sample_ledger
                 = Returned sample_repayment sample_repaid) by (vm_compute; reflexivity).
  split; [exact Hpay|]. split; [reflexivity|].
  destruct (payInvoice_listing sample_decode _ _ _ _ _ _ Hpay) as (_ & Hlen & _ & Hhead).
  assert (Hfirst : head (listPayments sample_repaid) = Some sample_repayment).
  { apply Hhead.
    replace (listPayments sample_ledger) with (map_values (payments sample_ledger))
      by (vm_compute; reflexivity).
    apply Forall_cons_2; [reflexivity|apply Forall_nil_2]. }
  destruct (listPayments sample_repaid) as [|first [|second others]];
    [discriminate| |discriminate].
  now injection Hfirst as ->.
Defined.

(** ** A restore while a close is pending *)





(** ** Properties of channel objects kept along runs *)

Section KeptAlongRuns.
Variable bolt11_decode : string -> DecodeResult.
Variable P : Channel -> Prop.
Variable C : Z -> Z -> Prop.
Hypothesis P_created : forall draw peer capacity push st,
  C capacity push -> P (fst (createChannel draw peer capacity push st)).
Hypothesis P_closing : forall c, P c -> P (set_isUsable false (set_state Closing c)).
Hypothesis P_closed : forall c, P c -> P (set_state Closed c).



End KeptAlongRuns.

(** ** The balance tool *)








Section BalanceTool.
Variable bolt11_decode : string -> DecodeResult.

End BalanceTool.


(** ** The payment listing tool *)

Lemma filter_sublist {A} (keep : A -> bool) (l : list A) : sublist (List.filter keep l) l.
Proof.
  induction l as [|x l IH]; simpl; [constructor|].
  destruct (keep x); [now apply sublist_skip|now apply sublist_cons].
Qed.

Lemma slice_to_sublist {A} (finish : Z) (l : list A) : sublist (slice_to finish l) l.
Proof. unfold slice_to. destruct (finish <? 0); apply sublist_take. Qed.

Lemma sublist_StronglySorted {A} (R : A -> A -> Prop) (l1 l2 : list A) :
  sublist l1 l2 -> StronglySorted R l2 -> StronglySorted R l1.
Proof.
  induction 1 as [|x l1 l2 Hsub IH|x l1 l2 Hsub IH]; intros Hsorted.
  - constructor.
  - apply StronglySorted_inv in Hsorted as [Hrest Hx].
    constructor; [now apply IH|].
    rewrite Forall_forall in Hx |- *. intros y Hy. apply Hx.
    eapply elem_of_sublist; eassumption.
  - apply StronglySorted_inv in Hsorted as [Hrest _]. now apply IH.
Qed.

Lemma map_StronglySorted {A B} (f : A -> B) (R : B -> B -> Prop) (l : list A) :
  StronglySorted (fun a b => R (f a) (f b)) l -> StronglySorted R (map f l).
Proof.
  induction 1 as [|x l Hl IH Hx]; simpl; [constructor|].
  constructor; [exact IH|].
  apply Forall_fmap. eapply Forall_impl; [exact Hx|]. intros y Hy. exact Hy.
Qed.

Lemma listed_payments_sublist (wanted : option string) (limit : option Z) (st : State) :
  sublist (listed_payments wanted limit st) (listPayments st).
Proof.
  unfold listed_payments.
  set (kept := match status_filter wanted with
               | Some s => List.filter _ (listPayments st)
               | None => listPayments st
               end).
  assert (Hkept : sublist kept (listPayments st)).
  { unfold kept. destruct (status_filter wanted); [apply filter_sublist|reflexivity]. }
  destruct limit as [n|]; [|exact Hkept].
  destruct (n =? 0); [exact Hkept|].
  etransitivity; [apply slice_to_sublist|exact Hkept].
Qed.

(** X8. The payment listing tool reports [listPayments], newest first, with
    [count] the number of payments reported.  Without a status, or with the
    empty text or [all], nothing is left out; with any other status exactly
    the payments of that status are kept, in their order.  Without a limit,
    or with the limit 0, all of these are reported; a positive limit keeps
    the first that many; a negative limit drops that many payments from the
    end. *)
Theorem listPaymentsTool_report (wanted : option string) (limit : option Z) (st : State) :
  let report := listPaymentsTool wanted limit st in
  let unlimited := listPaymentsTool wanted None st in
  fst report = Z.of_nat (length (snd report))
  /\ StronglySorted (fun a b => summary_timestamp b <= summary_timestamp a) (snd report)
  /\ (wanted = None \/ wanted = Some "" \/ wanted = Some "all" ->
        snd unlimited = map payment_summary (listPayments st))
  /\ (forall s, wanted = Some s -> s <> "" -> s <> "all" ->
        snd unlimited
        = map payment_summary
            (List.filter (fun p => String.eqb (PaymentStatus_text (status p)) s)
                         (listPayments st))
        /\ Forall (fun p => PaymentStatus_text (summary_status p) = s) (snd report))
  /\ (limit = None \/ limit = Some 0 -> report = unlimited)
  /\ (forall n, limit = Some n -> 0 < n ->
        snd report = take (Z.to_nat n) (snd unlimited))
  /\ (forall n, limit = Some n -> n < 0 ->
        snd report
        = take (length (snd unlimited) - Z.to_nat (- n)) (snd unlimited)).
Proof.
  intros report unlimited.
  pose proof (listed_payments_sublist wanted limit st) as Hsub.
  split; [unfold report, listPaymentsTool; simpl; now rewrite length_map|].
  split.
  { unfold report, listPaymentsTool. cbn [snd]. apply map_StronglySorted.
    eapply sublist_StronglySorted; [exact Hsub|].
    apply (array_sort_sorted timestamp). }
  split.
  { intros [->|[->| ->]]; reflexivity. }
  split.
  { intros s -> Hempty Hall.
    assert (Hfilter : status_filter (Some s) = Some s).
    { unfold status_filter. apply String.eqb_neq in Hempty, Hall.
      now rewrite Hempty, Hall. }
    split.
    { unfold unlimited, listPaymentsTool, listed_payments. cbn [snd].
      now rewrite Hfilter. }
    unfold report, listPaymentsTool. cbn [snd].
    apply Forall_fmap. unfold listed_payments. rewrite Hfilter.
    set (kept := List.filter _ (listPayments st)).
    assert (Hkept : Forall (fun p => PaymentStatus_text (status p) = s) kept).
    { apply Forall_forall. intros p Hp. apply list_elem_of_In in Hp.
      apply List.filter_In in Hp as [_ Hp]. now apply String.eqb_eq in Hp. }
    assert (Hslice : forall n, Forall (fun p => PaymentStatus_text (status p) = s)
                                 (slice_to n kept)).
    { intros n. rewrite Forall_forall in Hkept |- *. intros p Hp. apply Hkept.
      eapply elem_of_sublist; [exact Hp|apply slice_to_sublist]. }
    destruct limit as [n|]; [|exact Hkept].
    destruct (n =? 0); [exact Hkept|apply Hslice]. }
  unfold report, unlimited, listPaymentsTool, listed_payments. cbn [fst snd].
  set (kept := match status_filter wanted with
               | Some s => List.filter _ (listPayments st)
               | None => listPayments st
               end).
  split; [|split].
  - intros [->| ->]; reflexivity.
  - intros n -> Hn. destruct (Z.eqb_spec n 0) as [->|_]; [lia|].
    unfold slice_to. destruct (Z.ltb_spec n 0) as [Hneg|_]; [lia|].
    apply fmap_take.
  - intros n -> Hn. destruct (Z.eqb_spec n 0) as [->|_]; [lia|].
    unfold slice_to. destruct (Z.ltb_spec n 0) as [_|Hpos]; [|lia].
    rewrite length_map, <- fmap_take. f_equal. f_equal. lia.
Qed.

(** ** The payment tool and the fee estimate *)


(** X10. For a payment of an amount from 0 to 9,007,199,254,740 msat (so
    that [amount * 1000] is below [2^53]) the fee [estimateFee] gives for the
    amount is the fee [payInvoice] recorded for the payment plus the base
    fee of 1000 millisatoshis. *)
Theorem estimateFee_over_charged (bolt11_decode : string -> DecodeResult)
    (now : Z) (preimage invoice : string) (st st' : State) (payment : Payment) :
  payInvoice bolt11_decode now preimage invoice st = Returned payment st' ->
  0 <= amountMsat payment <= 9007199254740 ->
  feeMsat payment
  = Some (estimatedFeeMsat (estimateFee (amountMsat payment)) - 1000).
Proof.
  unfold payInvoice. destruct (bolt11_decode invoice) as [decoded|error]; [|discriminate].
  destruct (tag_data "payment_hash" (tags decoded)) as [hash|]; [|discriminate].
  intros [= <- _]. cbn [feeMsat amountMsat].
  set (amount := match millisatoshis decoded with Some a => a | None => 0 end).
  intros Hrange. f_equal.
  rewrite (routing_fee_exact amount ltac:(lia)).
  unfold estimateFee. cbn [estimatedFeeMsat].
  rewrite (proportional_fee_exact amount Hrange).
  replace (amount * 1000 / 1000000) with (amount / 1000); [lia|].
  change 1000000 with (1000 * 1000). now rewrite Z.div_mul_cancel_r by lia.
Qed.

Lemma estimateFee_over_charged_witness :
  payInvoice sample_decode 1700000005000 "ccdd" sample_invoice sample_ledger
  = Returned sample_repayment sample_repaid
  /\ estimatedFeeMsat (estimateFee 250000) = 1250
  /\ feeMsat sample_repayment
     = Some (estimatedFeeMsat (estimateFee (amountMsat sample_repayment)) - 1000).
Proof.
  assert (Hpay : payInvoice sample_decode 1700000005000 "ccdd" sample_invoice sample_ledger
                 = Returned sample_repayment sample_repaid) by (vm_compute; reflexivity).
  split; [exact Hpay|]. split; [vm_compute; reflexivity|].
  apply (estimateFee_over_charged sample_decode _ _ _ _ _ _ Hpay).
  simpl. lia.
Defined.

(** ** The channel tools *)

Lemma number_times_integer (x y : Z) :
  0 <= x * y < 9007199254740992 ->
  Math_floor (number_times x (number_of y)) = x * y.
Proof.
  intros Hxy. unfold number_times, number_of. cbn [fst snd].
  change (2 ^ Z.max 0 0) with 1. change (2 ^ Z.max 0 (- 0)) with 1.
  rewrite Z.mul_1_r. now apply Math_floor_integer.
Qed.

Lemma is_number_integer (z : Z) : 0 <= z < 9007199254740992 -> is_number z = true.
Proof. intros Hz. unfold is_number. rewrite Math_floor_integer by exact Hz. apply Z.eqb_refl. Qed.

Lemma floor_sats_exact (msat : Z) :
  0 <= msat < 9007199254740992 -> floor_sats msat = msat / 1000.
Proof.
  intros Hm. unfold floor_sats. now rewrite msat_to_sats_exact.
Qed.

(** Above [2^53] millisatoshis the products round: a capacity of
    72,057,711,830,165 satoshis is reported as 72,057,711,830,164. *)
Example createChannelTool_rounds :
  created_capacitySats
    <$> (fst <$> createChannelTool sample_draw sample_peer 72057711830165 (Some 0)
                   (new_service "02aa"))
  = Some 72057711830164
  /\ created_localBalanceSats
       <$> (fst <$> createChannelTool sample_draw sample_peer 8139489011881921
                      (Some 7701565737657021) (new_service "02aa"))
     = Some 437923274224899.
Proof. split; vm_compute; reflexivity. Qed.

(** X11. For a capacity and a push in whole satoshis with
    [0 <= pushSats <= capacitySats <= 9,007,199,254,740], so that the
    products by 1000 stay below [2^53], the channel tool turns satoshis into
    millisatoshis and back without loss: it reports the capacity and the
    push it was given and their difference as local balance, for a channel
    it stores in millisatoshis under the identifier drawn.  Without
    [pushSats] the amounts are not numbers and the call is not followed. *)
Theorem createChannelTool_report (draw : ChannelDraw) (peer : string)
    (capacitySats pushSats : Z) (st : State) :
  registry_ok st ->
  0 <= pushSats <= capacitySats -> capacitySats <= 9007199254740 ->
  createChannelTool draw peer capacitySats None st = None
  /\ exists report st' channel,
       createChannelTool draw peer capacitySats (Some pushSats) st = Some (report, st')
       /\ st' = snd (createChannel draw peer (capacitySats * 1000) (pushSats * 1000) st)
       /\ created_channelId report = draw_channelId draw
       /\ created_state report = Open
       /\ created_capacitySats report = capacitySats
       /\ created_remoteBalanceSats report = pushSats
       /\ created_localBalanceSats report = capacitySats - pushSats
       /\ map_get String.eqb (draw_channelId draw) (channel_registry st') = Some channel
       /\ capacityMsat channel = capacitySats * 1000
       /\ localBalanceMsat channel = (capacitySats - pushSats) * 1000
       /\ remoteBalanceMsat channel = pushSats * 1000
       /\ isUsable channel = true.
Proof.
  intros Hok Hpush Hcapacity. split; [reflexivity|].
  pose proof (registry_ok_createChannel draw peer (capacitySats * 1000) (pushSats * 1000)
                st Hok) as [_ _ Hr].
  unfold createChannelTool. cbn [mbind option_bind].
  rewrite !number_times_integer by lia.
  rewrite is_number_integer by lia.
  eexists _, _, _. split; [reflexivity|]. split; [reflexivity|].
  cbn [created_channelId created_state created_capacitySats created_remoteBalanceSats
       created_localBalanceSats].
  split; [reflexivity|]. split; [reflexivity|].
  unfold createChannel. cbn [fst snd capacityMsat localBalanceMsat remoteBalanceMsat].
  rewrite !floor_sats_exact by lia.
  split; [now rewrite Z.div_mul by lia|]. split; [now rewrite Z.div_mul by lia|].
  split.
  { replace (capacitySats * 1000 - pushSats * 1000) with ((capacitySats - pushSats) * 1000)
      by lia. now rewrite Z.div_mul by lia. }
  split.
  { rewrite channel_registry_get by exact Hr. unfold createChannel; simpl.
    rewrite map_get_set_eq. simpl. apply list_lookup_middle. reflexivity. }
  cbn [capacityMsat localBalanceMsat remoteBalanceMsat isUsable].
  split; [reflexivity|]. split; [lia|]. split; reflexivity.
Qed.

Lemma createChannelTool_report_witness :
  registry_ok sample_opened
  /\ exists report st',
       createChannelTool sample_draw sample_peer 20000 (Some 1500) sample_opened
       = Some (report, st')
       /\ created_localBalanceSats report = 18500.
Proof.
  assert (Hok : registry_ok sample_opened).
  { split; vm_compute; [apply NoDup_singleton|apply NoDup_nil_2|repeat constructor]. }
  split; [exact Hok|].
  destruct (createChannelTool_report sample_draw sample_peer 20000 1500 sample_opened Hok)
    as (_ & report & st' & channel & Hrun & _ & _ & _ & _ & _ & Hlocal & _); [lia|lia|].
  exists report, st'. split; [exact Hrun|exact Hlocal].
Defined.



Section ChannelStatusTool.
Variable bolt11_decode : string -> DecodeResult.

End ChannelStatusTool.


(** ** The tools work on separate ledgers *)

Section SeparateLedgers.
Variable bolt11_decode : string -> DecodeResult.

Lemma serve_untouched (nodes : NodeDraws) (c : call) (srv srv' : Services) (a : answer) :
  untouched_services nodes srv ->
  serve bolt11_decode c srv = Some (a, srv') ->
  untouched_services nodes srv' /\ empty_ledger_answer nodes a.
Proof.
  intros (Hclose & Hbalance & Hlist & Hinfo & Hstatus).
  destruct c as [draw peer capacitySats pushSats|now channelId force|now preimage invoice
                | |wanted limit| |includeOffline|now action backupData|now]; simpl.
  - destruct (createChannelTool _ _ _ _ _) as [[r st']|]; simpl; [|discriminate].
    intros [= <- <-]. split; [|exact I]. now split.
  - rewrite Hclose. simpl. intros [= <- <-]. split; [|reflexivity].
    unfold untouched_services. simpl. now split.
  - destruct (payInvoiceTool _ _ _ _ _) as [[r st']|]; simpl; [|discriminate].
    intros [= <- <-]. split; [|exact I]. now split.
  - intros [= <- <-]. split; [now split|]. simpl. now rewrite Hbalance.
  - intros [= <- <-]. split; [now split|]. simpl. rewrite Hlist.
    unfold listed_payments, listPayments. simpl.
    destruct (status_filter wanted); destruct limit as [n|]; simpl;
      try destruct (n =? 0); try (split; reflexivity);
      unfold slice_to; destruct (n <? 0); simpl; rewrite take_nil; split; reflexivity.
  - intros [= <- <-]. split; [now split|]. simpl. now rewrite Hinfo.
  - intros [= <- <-]. split; [now split|]. simpl. rewrite Hstatus.
    now destruct includeOffline as [[|]|].
  - destruct (backupStateTool _ _ _ _) as [[r st']|]; simpl; [|discriminate].
    intros [= <- <-]. split; [|exact I]. now split.
  - intros [= <- <-]. split; [|exact I].
    unfold untouched_services. simpl.
    rewrite Hclose, Hbalance, Hlist, Hinfo, Hstatus. now repeat split.
Qed.

Lemma serve_all_untouched (nodes : NodeDraws) (calls : list call)
    (srv srv' : Services) (answers : list answer) :
  untouched_services nodes srv ->
  serve_all bolt11_decode calls srv = Some (answers, srv') ->
  untouched_services nodes srv' /\ Forall (empty_ledger_answer nodes) answers.
Proof.
  revert srv answers. induction calls as [|c calls IH]; intros srv answers Hsrv; simpl.
  - intros [= <- <-]. split; [exact Hsrv|apply Forall_nil_2].
  - destruct (serve bolt11_decode c srv) as [[a srv1]|] eqn:Hc; simpl; [|discriminate].
    destruct (serve_untouched nodes c srv srv1 a Hsrv Hc) as [Hsrv1 Ha].
    destruct (serve_all bolt11_decode calls srv1) as [[rest srv2]|] eqn:Hrest; simpl;
      [|discriminate].
    intros [= <- <-]. destruct (IH srv1 rest Hsrv1 Hrest) as [Hsrv2 Hanswers].
    split; [exact Hsrv2|]. now apply Forall_cons_2.
Qed.

(** X13. Every tool module builds its own service, so no call reaches the
    ledger of another tool.  Whatever calls the server has answered since
    its start, creations of channels and payments included, the close tool
    answers [Channel not found], the balance tool reports zeros, the payment
    listing is empty, the node information counts no channel and the
    channel status lists none. *)
Theorem tools_on_separate_ledgers (nodes : NodeDraws) (calls : list call)
    (answers : list answer) (srv : Services) :
  serve_all bolt11_decode calls (start_services nodes) = Some (answers, srv) ->
  (forall r, AnswerCloseChannel r ∈ answers -> r = ToolFailure "Channel not found")
  /\ (forall r, AnswerGetBalance r ∈ answers -> r = mkBalanceReport 0 0 0 0 0)
  /\ (forall count payments, AnswerListPayments count payments ∈ answers ->
         count = 0 /\ payments = [])
  /\ (forall r, AnswerGetNodeInfo r ∈ answers ->
         report_nodeId r = node_getNodeInfo nodes
         /\ report_channels_total r = 0 /\ report_channels_usable r = 0
         /\ report_totalSats r = 0 /\ report_spendableSats r = 0)
  /\ (forall r, AnswerGetChannelStatus r ∈ answers ->
         totalChannels r = 0 /\ usableChannels r = 0 /\ totalCapacitySats r = 0
         /\ channel_lines r = []).
Proof.
  intros Hserved.
  assert (Hstart : untouched_services nodes (start_services nodes))
    by (unfold untouched_services; simpl; now repeat split).
  destruct (serve_all_untouched nodes calls _ _ _ Hstart Hserved) as [_ Hanswers].
  rewrite Forall_forall in Hanswers.
  split; [intros r Hr; exact (Hanswers _ Hr)|].
  split; [intros r Hr; exact (Hanswers _ Hr)|].
  split; [intros count payments Hr; exact (Hanswers _ Hr)|].
  split; intros r Hr; rewrite (Hanswers _ Hr); now repeat split.
Qed.
End SeparateLedgers.

Lemma tools_on_separate_ledgers_witness :
  serve_all sample_decode sample_calls (start_services sample_nodes)
  = Some (fst sample_served, snd sample_served)
  /\ AnswerCloseChannel (ToolFailure "Channel not found") ∈ fst sample_served
  /\ forall r, AnswerGetBalance r ∈ fst sample_served -> r = mkBalanceReport 0 0 0 0 0.
Proof.
  assert (Hserved : serve_all sample_decode sample_calls (start_services sample_nodes)
                    = Some (fst sample_served, snd sample_served))
    by (vm_compute; reflexivity).
  split; [exact Hserved|]. split.
  - vm_compute. apply list_elem_of_further, list_elem_of_further, list_elem_of_here.
  - apply (tools_on_separate_ledgers sample_decode sample_nodes sample_calls _ _ Hserved).
Defined.

(** ** The backup tool *)

(** X14. The backup tool answers the action [backup] with the backup of its
    service, which it leaves as it is; handing that backup back with the
    action [restore], to this or to any other service, succeeds and puts the
    node information, the channels and the payments of the backup in place.
    A restore without data, a text that does not parse and any other action
    are answered with a failure and change nothing. *)
Theorem backupStateTool_actions (now later : Z) (action : string)
    (backupData : option blob) (st other : State) :
  registry_ok st ->
  backupStateTool now "backup" backupData st
  = Some (ToolSuccess (BackupTaken (backupState now st)), st)
  /\ (exists other',
        backupStateTool later "restore" (Some (backupState now st)) other
        = Some (ToolSuccess (RestoreDone true), other')
        /\ nodeInfo other' = nodeInfo st
        /\ channel_registry other' = channel_registry st
        /\ getChannelStatus other' = getChannelStatus st
        /\ listPayments other' = listPayments st
        /\ getBalance other' = getBalance st)
  /\ backupStateTool later "restore" None other
     = Some (ToolFailure "Backup data required for restore", other)
  /\ (forall error,
        backupStateTool later "restore" (Some (Unparsable error)) other
        = Some (ToolFailure ("Failed to restore state: " ++ error)%string, other))
  /\ (action <> "backup" -> action <> "restore" ->
        backupStateTool later action backupData other
        = Some (ToolFailure invalid_action, other)).
Proof.
  intros Hok. split; [reflexivity|]. split.
  { eexists. unfold backupStateTool. cbn [String.eqb Ascii.eqb Bool.eqb].
    rewrite (restoreState_backup now st other Hok).
    split; [reflexivity|].
    destruct (restored_reads (nodeInfo st) (channel_registry st) (payments st) other)
      as (Hinfo & Hreg & Hstatus & Hpay & Hlist & _).
    split; [exact Hinfo|]. split; [exact Hreg|].
    assert (Hsame : getChannelStatus
                      (restored (nodeInfo st) (channel_registry st) (payments st) other)
                    = getChannelStatus st)
      by (rewrite Hstatus; symmetry; apply getChannelStatus_registry).
    split; [exact Hsame|]. split; [exact Hlist|].
    unfold getBalance. now rewrite Hsame. }
  split; [reflexivity|]. split; [reflexivity|].
  intros Hbackup Hrestore. unfold backupStateTool.
  apply String.eqb_neq in Hbackup, Hrestore. now rewrite Hbackup, Hrestore.
Qed.

Lemma backupStateTool_actions_witness :
  registry_ok sample_opened
  /\ exists other',
       backupStateTool 6000 "restore" (Some (backupState 500 sample_opened))
         (new_service "02bb")
       = Some (ToolSuccess (RestoreDone true), other')
       /\ getBalance other' = (900000, 891000).
Proof.
  assert (Hok : registry_ok sample_opened).
  { split; vm_compute; [apply NoDup_singleton|apply NoDup_nil_2|repeat constructor]. }
  split; [exact Hok|].
  destruct (backupStateTool_actions 500 6000 "backup" None sample_opened
              (new_service "02bb") Hok)
    as (_ & (other' & Hrestore & _ & _ & _ & _ & Hbalance) & _).
  exists other'. split; [exact Hrestore|]. rewrite Hbalance. reflexivity.
Defined.

Section BackupOfTheTool.
Variable bolt11_decode : string -> DecodeResult.


End BackupOfTheTool.


(** ** Creating a channel and closing it again *)







(** ** A restore overwrites *)

(** X17. Whether [restoreState] succeeds depends on the backup only, and so
    does what a restored service shows: a backup that one service restores,
    any service restores, and both then have the same node information, the
    same channels under the same identifiers, the same payments and the
    same balance, whatever they held before.  The queued callbacks of the
    restoring service stay. *)
Theorem restoreState_overwrites (backup : blob) (st1 st1' st2 : State) :
  restoreState backup st1 = Returned true st1' ->
  exists st2',
    restoreState backup st2 = Returned true st2'
    /\ nodeInfo st2' = nodeInfo st1'
    /\ channel_registry st2' = channel_registry st1'
    /\ getChannelStatus st2' = getChannelStatus st1'
    /\ payments st2' = payments st1'
    /\ listPayments st2' = listPayments st1'
    /\ getBalance st2' = getBalance st1'
    /\ timers st2' = timers st2.
Proof.
  intros Hrestore.
  destruct (restoreState_replaces _ _ _ _ Hrestore) as (ni & cs & ps & _ & Hshape).
  rewrite Hshape in Hrestore. injection Hrestore as <-.
  exists (restored ni cs ps st2). split; [apply Hshape|].
  destruct (restored_reads ni cs ps st1) as (Hi1 & Hr1 & Hs1 & Hp1 & Hl1 & _).
  destruct (restored_reads ni cs ps st2) as (Hi2 & Hr2 & Hs2 & Hp2 & Hl2 & Ht2).
  split; [now rewrite Hi1, Hi2|]. split; [now rewrite Hr1, Hr2|].
  split; [now rewrite Hs1, Hs2|]. split; [now rewrite Hp1, Hp2|].
  split; [now rewrite Hl1, Hl2|].
  split; [unfold getBalance; now rewrite Hs1, Hs2|exact Ht2].
Qed.

Lemma restoreState_overwrites_witness :
  restoreState (backupState 500 sample_opened) sample_closing
  = Returned true sample_reopened
  /\ exists st2',
       restoreState (backupState 500 sample_opened) (new_service "02bb")
       = Returned true st2'
       /\ getBalance st2' = getBalance sample_reopened.
Proof.
  assert (Hok : registry_ok sample_opened).
  { split; vm_compute; [apply NoDup_singleton|apply NoDup_nil_2|repeat constructor]. }
  assert (Hrestore : restoreState (backupState 500 sample_opened) sample_closing
                     = Returned true sample_reopened)
    by (apply restoreState_backup; exact Hok).
  split; [exact Hrestore|].
  destruct (restoreState_overwrites _ _ _ (new_service "02bb") Hrestore)
    as (st2' & Hst2' & _ & _ & _ & _ & _ & Hbalance & _).
  exists st2'. split; [exact Hst2'|exact Hbalance].
Defined.
